(** * Harbour Pools passport: a shallow embedding of [app.js] and [data.js]

    The development follows the source files function by function.

    - JavaScript strings are sequences of UTF-16 code units ([list N]).
    - The numbers that the program computes with (indices, page numbers,
      array lengths, epoch milliseconds) are integers, [Z]; [%] is the
      truncating remainder [Z.rem], as in JavaScript; [Math.ceil(a / b)]
      is the ceiling of the rational quotient. Coordinates are never
      computed with and stay abstract.
    - The object [visited] is a finite map from pool names to records.
    - The module-level variables of [app.js] are the fields of one record,
      [World]; every function of [app.js] is a command that transforms the
      world and may complete abruptly (a thrown [TypeError]). What the
      environment decides (the clock, the answer to a dialog, the outcome
      of [fetch]) is an argument of the command that asks for it.
    - Calls into [storage.js], the DOM and the Leaflet map are recorded, in
      order, in the world's list of effects.

    Layout: strings and dates; the data model; [data.js] and [app.js];
    [storage.js] (which is modelled from its specification); sample data;
    then the lemmas, by function, and the scenarios. *)

From Stdlib Require Import ZArith NArith QArith Qround List String Ascii Lia.
From Stdlib Require Import DecimalString DecimalN.
From stdpp Require Import base option list gmap.

Local Open Scope Z_scope.

(** ** JavaScript strings *)

Module JsString.

(** A string is its sequence of UTF-16 code units. *)
Abbreviation jsstring := (list N).

(** The code units of an ASCII literal. *)
Definition js (s : string) : jsstring :=
  map N_of_ascii (list_ascii_of_string s).

(** ECMAScript [WhiteSpace] and [LineTerminator] code points: what
    [String.prototype.trim] strips. All of them lie in the basic plane,
    so the test is on one code unit. *)
Definition isWhiteSpace (c : N) : bool :=
  ((9 <=? c) && (c <=? 13)            (* TAB LF VT FF CR *)
   || (c =? 32)                       (* SPACE *)
   || (c =? 160)                      (* NO-BREAK SPACE *)
   || (c =? 5760)                     (* OGHAM SPACE MARK *)
   || (8192 <=? c) && (c <=? 8202)    (* EN QUAD .. HAIR SPACE *)
   || (c =? 8232) || (c =? 8233)      (* LINE / PARAGRAPH SEPARATOR *)
   || (c =? 8239)                     (* NARROW NO-BREAK SPACE *)
   || (c =? 8287)                     (* MEDIUM MATHEMATICAL SPACE *)
   || (c =? 12288)                    (* IDEOGRAPHIC SPACE *)
   || (c =? 65279))%N%bool.           (* ZERO WIDTH NO-BREAK SPACE *)

Fixpoint trimStart (s : jsstring) : jsstring :=
  match s with
  | [] => []
  | c :: rest => if isWhiteSpace c then trimStart rest else s
  end.

Definition trimEnd (s : jsstring) : jsstring :=
  rev (trimStart (rev s)).

(** [s.trim()] *)
Definition trim (s : jsstring) : jsstring :=
  trimEnd (trimStart s).

(** [!s] for a string: only the empty string is falsy. *)
Definition falsy (s : jsstring) : bool :=
  match s with [] => true | _ => false end.

(** A string made of white space only (the empty string included). *)
Definition isBlank (s : jsstring) : bool :=
  forallb isWhiteSpace s.

(** [s.split(sep)[0]] for a one-unit separator: the part of [s] before
    the first occurrence of [sep], all of [s] when there is none. *)
Fixpoint splitHead (sep : N) (s : jsstring) : jsstring :=
  match s with
  | [] => []
  | c :: rest => if (c =? sep)%N then [] else c :: splitHead sep rest
  end.

(** Decimal rendering of a non-negative integer, as a template literal
    renders an integer-valued number. *)
Definition decimal (n : N) : jsstring :=
  js (NilEmpty.string_of_uint (N.to_uint n)).

End JsString.
Import JsString.

(** ** The clock: [new Date().toISOString()] *)

Module JsDate.

Definition msPerDay : Z := 86400000.

(** [w] decimal digits of [n], most significant first. *)
Fixpoint digits (w : nat) (n : Z) : jsstring :=
  match w with
  | O => []
  | S w' => digits w' (n / 10) ++ [Z.to_N (48 + n mod 10)]
  end.

(** Proleptic Gregorian year, month (1..12) and day of month (1..31) of
    a day number counted from 1970-01-01. *)
Definition civil (day : Z) : Z * Z * Z :=
  let z := day + 719468 in
  let era := z / 146097 in
  let doe := z - era * 146097 in
  let yoe := (doe - doe / 1460 + doe / 36524 - doe / 146096) / 365 in
  let doy := doe - (365 * yoe + yoe / 4 - yoe / 100) in
  let mp := (5 * doy + 2) / 153 in
  let d := doy - (153 * mp + 2) / 5 + 1 in
  let m := if mp <? 10 then mp + 3 else mp - 9 in
  let y := yoe + era * 400 + (if m <=? 2 then 1 else 0) in
  (y, m, d).

(** Years 0..9999 print with four digits, the others with a sign and
    six digits. *)
Definition isoYear (y : Z) : jsstring :=
  if (0 <=? y) && (y <=? 9999) then digits 4 y
  else if y <? 0 then js "-" ++ digits 6 (- y)
  else js "+" ++ digits 6 y.

(** The calendar part [YYYY-MM-DD] of the UTC rendering of the instant
    [t] (milliseconds since the epoch). *)
Definition isoDate (t : Z) : jsstring :=
  let '(y, m, d) := civil (t / msPerDay) in
  isoYear y ++ js "-" ++ digits 2 m ++ js "-" ++ digits 2 d.

(** The clock part [HH:mm:ss.sss]. *)
Definition isoTime (t : Z) : jsstring :=
  let ms := t mod msPerDay in
  digits 2 (ms / 3600000) ++ js ":" ++ digits 2 (ms / 60000 mod 60)
    ++ js ":" ++ digits 2 (ms / 1000 mod 60) ++ js "." ++ digits 3 (ms mod 1000).

(** [new Date(t).toISOString()], for an instant in the range of valid
    time values (|t| <= 8.64e15). *)
Definition toISOString (t : Z) : jsstring :=
  isoDate t ++ js "T" ++ isoTime t ++ js "Z".

End JsDate.

(** ** Data model *)

(** [{ done, date }]: [date] is a string or [null]. *)
Record VisitRecord := { done : bool; date : option jsstring }.

(** The object [visited]: pool name to record; a missing key reads as
    [undefined]. Names are taken to be ordinary keys: no pool is called
    like a member of [Object.prototype]. *)
Abbreviation VisitedMap := (gmap jsstring VisitRecord).

(** An error object with its message. *)
Record JsError := { message : jsstring }.

(** How a statement list ends: normally, or by a thrown [TypeError]
    (a property read on [undefined] or [null]). *)
Inductive Completion := Normal | Throw.

(** The mount points of [app.html] that [app.js] looks up: [true] when
    [document.getElementById] finds the element. *)
Record Dom := {
  poolList : bool;
  countBadge : bool;
  listView : bool;
  passportView : bool;
  toggleBtn : bool;
  passportGrid : bool;
  passportPageLabel : bool;
  prevPassportPage : bool;
  nextPassportPage : bool
}.

(** [arr[i]] for an integer [i]: [undefined] out of range. *)
Definition at_index {A} (l : list A) (i : Z) : option A :=
  if i <? 0 then None else l !! Z.to_nat i.

(** [arr.length] *)
Definition len {A} (l : list A) : Z := Z.of_nat (length l).

(** [arr.slice(start, end)]: negative arguments count from the end, both
    are clamped into [0, length]. *)
Definition slice {A} (l : list A) (start end_ : Z) : list A :=
  let k := if start <? 0 then Z.max (len l + start) 0 else Z.min start (len l) in
  let final := if end_ <? 0 then Z.max (len l + end_) 0 else Z.min end_ (len l) in
  take (Z.to_nat (final - k)) (drop (Z.to_nat k) l).

(** [Math.ceil(a / b)] on integer-valued numbers: the quotient is taken
    in the rationals. *)
Definition ceil_quotient (a b : Z) : Z :=
  Qceiling (Qdiv (inject_Z a) (inject_Z b)).

(** Modelled from the spec: [countVisited] of [storage.js], which is not
    among the sources; the number of entries of the map whose [done] is
    [true]. *)
Definition countVisited (v : VisitedMap) : Z :=
  Z.of_nat (size (filter (fun kv => done kv.2 = true) v)).

(** ** [data.js] and [app.js] *)

Section Program.

(** Coordinates are IEEE doubles that the program never computes with:
    the type of numbers, the type of the JSON values found in the data
    file, and the coercion [Number(...)] between them stay abstract. *)
Context {number json : Type}.
Variable Number : json -> number.

(** [{ name, lat, lng }] *)
Record Pool := { name : jsstring; lat : number; lng : number }.

(** A record of [pools.json] as parsed. *)
Record RawPool := { raw_name : jsstring; raw_lat : json; raw_lng : json }.

(** The resolved [fetch]: [response.ok], [response.status], and the
    outcome of [response.json()] followed by [raw.map]: the parsed array
    of records, or the error when the body is not such an array. *)
Record Response := {
  ok : bool;
  status : N;
  json_body : JsError + list RawPool
}.

(** [loadPools] of [data.js], from the response that [fetch] resolved
    with; [inl] is the rejection of the returned promise. *)
Definition loadPools (response : Response) : JsError + list Pool :=
  if negb (ok response) then
    inl {| message := js "Failed to load pools.json (status "
                        ++ decimal (status response) ++ js ")" |}
  else
    match json_body response with
    | inl e => inl e
    | inr raw =>
        inr (map (fun p => {| name := raw_name p;
                              lat := Number (raw_lat p);
                              lng := Number (raw_lng p) |}) raw)
    end.

(** One card of the passport grid: the pool, whether the stamp carries
    the [pop] class, whether it is drawn stamped, and the date text
    ([stampDate || ''] is the empty text for [None]). *)
Record Card := {
  card_pool : Pool;
  card_pop : bool;
  card_stamped : bool;
  card_date : option jsstring
}.

(** What the program does to its collaborators, in program order. *)
Inductive Effect :=
| WriteVisited (v : VisitedMap)          (* writeVisited(visited) *)
| WriteSelection (i : Z)                 (* writeSelection(selectedIndex) *)
| WriteStampsPage (p : Z)                (* writeStampsPage(currentStampsPage) *)
| PoolListNone                           (* 'No pools loaded.' *)
| PoolListCleared                        (* list.innerHTML = '' *)
| PoolListRow (p : Pool) (stamped : bool) (stampDate : option jsstring)
| PoolListText (msg : jsstring)          (* list.textContent = msg *)
| CountBadge (visitedCount total : Z)    (* countBadge.textContent *)
| GridCleared                            (* grid.innerHTML = '' *)
| GridCard (c : Card)                    (* grid.appendChild(card) *)
| PageLabel (page total : Z)             (* 'Page p of t' *)
| PrevDisabled (b : bool)
| NextDisabled (b : bool)
| ViewShown (showStamps : bool)          (* class toggles and button text *)
| MapCreated (p : Pool)                  (* L.map, tile layer, L.marker *)
| MarkerMoved (p : Pool)                 (* setLatLng + bindPopup *)
| MapCentered (p : Pool)                 (* map.setView(.., 15) *)
| ResizeScheduled (pan : bool)           (* setTimeout(.., 150) *)
| MapResized                             (* map.invalidateSize() *)
| FullMapToggled                         (* body class, button text *)
| OpenedMaps (p : Pool) (apple : bool)   (* window.open(url, '_blank') *)
| ConsoleError (e : JsError).

(** The module-level variables of [app.js], the document they were
    bound against, and the effects so far (oldest first). [mapReady]
    stands for [map] and [marker], which [setupMap] sets together. *)
Record World := {
  pools : list Pool;
  visited : VisitedMap;
  selectedIndex : Z;
  currentStampsPage : Z;
  onStampsView : bool;
  mapReady : bool;
  dom : Dom;
  effects : list Effect
}.

Definition set_pools (x : list Pool) (w : World) : World :=
  {| pools := x; visited := visited w; selectedIndex := selectedIndex w;
     currentStampsPage := currentStampsPage w; onStampsView := onStampsView w;
     mapReady := mapReady w; dom := dom w; effects := effects w |}.
Definition set_visited (x : VisitedMap) (w : World) : World :=
  {| pools := pools w; visited := x; selectedIndex := selectedIndex w;
     currentStampsPage := currentStampsPage w; onStampsView := onStampsView w;
     mapReady := mapReady w; dom := dom w; effects := effects w |}.
Definition set_selectedIndex (x : Z) (w : World) : World :=
  {| pools := pools w; visited := visited w; selectedIndex := x;
     currentStampsPage := currentStampsPage w; onStampsView := onStampsView w;
     mapReady := mapReady w; dom := dom w; effects := effects w |}.
Definition set_currentStampsPage (x : Z) (w : World) : World :=
  {| pools := pools w; visited := visited w; selectedIndex := selectedIndex w;
     currentStampsPage := x; onStampsView := onStampsView w;
     mapReady := mapReady w; dom := dom w; effects := effects w |}.
Definition set_onStampsView (x : bool) (w : World) : World :=
  {| pools := pools w; visited := visited w; selectedIndex := selectedIndex w;
     currentStampsPage := currentStampsPage w; onStampsView := x;
     mapReady := mapReady w; dom := dom w; effects := effects w |}.
Definition set_mapReady (x : bool) (w : World) : World :=
  {| pools := pools w; visited := visited w; selectedIndex := selectedIndex w;
     currentStampsPage := currentStampsPage w; onStampsView := onStampsView w;
     mapReady := x; dom := dom w; effects := effects w |}.
Definition emit (e : Effect) (w : World) : World :=
  {| pools := pools w; visited := visited w; selectedIndex := selectedIndex w;
     currentStampsPage := currentStampsPage w; onStampsView := onStampsView w;
     mapReady := mapReady w; dom := dom w; effects := effects w ++ [e] |}.

(** A function body: from the world before to the completion and the
    world after. What a body changed before it threw stays changed. *)
Definition Cmd : Type := World -> Completion * World.

Definition skip : Cmd := fun w => (Normal, w).
Definition throw : Cmd := fun w => (Throw, w).
Definition act (f : World -> World) : Cmd := fun w => (Normal, f w).

Definition andThen (c1 c2 : Cmd) : Cmd :=
  fun w => match c1 w with
           | (Normal, w') => c2 w'
           | (Throw, w') => (Throw, w')
           end.

(** Run a command that depends on the current world. *)
Definition reading (k : World -> Cmd) : Cmd := fun w => k w w.

(** Touch a property of a looked-up element: a [TypeError] when the
    element is [null]. *)
Definition requires (present : Dom -> bool) : Cmd :=
  fun w => if present (dom w) then (Normal, w) else (Throw, w).

(** [if (el) ...] on a looked-up element. *)
Definition whenPresent (present : Dom -> bool) (c : Cmd) : Cmd :=
  fun w => if present (dom w) then c w else (Normal, w).

Notation "c1 >> c2" := (andThen c1 c2) (at level 62, right associativity).

(** *** Small helpers of [app.js] *)

(** [v && v.done] as a condition. *)
Definition stampedOf (v : option VisitRecord) : bool :=
  match v with
  | Some r => done r
  | None => false
  end.

(** [stamped && v.date ? v.date : null]: an empty date string is falsy. *)
Definition stampDateOf (v : option VisitRecord) : option jsstring :=
  match v with
  | Some r =>
      if done r then
        match date r with
        | Some d => if falsy d then None else Some d
        | None => None
        end
      else None
  | None => None
  end.

(** [new Date().toISOString().split('T')[0]] when the clock reads the
    instant [now]; 84 is the code unit of [T]. *)
Definition today (now : Z) : jsstring :=
  splitHead 84 (JsDate.toISOString now).

Definition updateCount : Cmd :=
  reading (fun w =>
    let visitedCount := countVisited (visited w) in
    requires countBadge >>
    act (emit (CountBadge visitedCount (len (pools w))))).

Definition renderList : Cmd :=
  reading (fun w =>
    if len (pools w) =? 0 then
      requires poolList >> act (emit PoolListNone)
    else
      requires poolList >> act (emit PoolListCleared) >>
      match at_index (pools w) (selectedIndex w) with
      | None => throw                       (* p.name on undefined *)
      | Some p =>
          let v := visited w !! name p in
          act (emit (PoolListRow p (stampedOf v) (stampDateOf v))) >>
          updateCount
      end).

(** *** The passport grid *)

Definition stampsPerPage : Z := 3.

Definition totalPages (ps : list Pool) : Z :=
  Z.max 1 (ceil_quotient (len ps) stampsPerPage).

(** The two range checks on [currentStampsPage], in source order. *)
Definition clampPage (total page : Z) : Z :=
  let page := if page <? 0 then 0 else page in
  if page >? total - 1 then total - 1 else page.

Definition pagePools (ps : list Pool) (page : Z) : list Pool :=
  let start := page * stampsPerPage in
  slice ps start (start + stampsPerPage).

(** The card drawn for [p]. The label text is a function of the name
    and of [card_stamped], and is not kept. *)
Definition cardOf (v : VisitedMap) (popName : option jsstring) (p : Pool) : Card :=
  {| card_pool := p;
     card_pop := match popName with
                 | Some n => bool_decide (n = name p)
                 | None => false
                 end;
     card_stamped := stampedOf (v !! name p);
     card_date := stampDateOf (v !! name p) |}.

Definition renderStamps (popName : option jsstring) : Cmd :=
  whenPresent passportGrid
    (reading (fun w =>
       act (set_currentStampsPage
              (clampPage (totalPages (pools w)) (currentStampsPage w)))) >>
     reading (fun w => act (emit (WriteStampsPage (currentStampsPage w)))) >>
     act (emit GridCleared) >>
     reading (fun w =>
       act (fun w0 =>
              fold_left (fun acc p => emit (GridCard (cardOf (visited w) popName p)) acc)
                        (pagePools (pools w) (currentStampsPage w)) w0)) >>
     whenPresent passportPageLabel
       (reading (fun w =>
          act (emit (PageLabel (currentStampsPage w + 1) (totalPages (pools w)))))) >>
     whenPresent prevPassportPage
       (reading (fun w => act (emit (PrevDisabled (currentStampsPage w =? 0))))) >>
     whenPresent nextPassportPage
       (reading (fun w =>
          act (emit (NextDisabled
                       (currentStampsPage w =? totalPages (pools w) - 1)))))).

Definition changeStampsPage (delta : Z) : Cmd :=
  act (fun w => set_currentStampsPage (currentStampsPage w + delta) w) >>
  renderStamps None.

(** *** Stamps *)

Definition toggleStamp (now : Z) (nm : jsstring) (animate : bool) : Cmd :=
  act (fun w =>
         let existing := visited w !! nm in
         if stampedOf existing then
           set_visited (<[nm := {| done := false; date := None |}]> (visited w)) w
         else
           set_visited (<[nm := {| done := true; date := Some (today now) |}]> (visited w)) w) >>
  reading (fun w => act (emit (WriteVisited (visited w)))) >>
  renderList >>
  renderStamps (if animate then Some nm else None).

Definition setStampDate (nm : jsstring) (d : jsstring) : Cmd :=
  if falsy d then skip
  else
    let trimmed := trim d in
    if falsy trimmed then skip
    else
      act (fun w =>
             set_visited (<[nm := {| done := true; date := Some trimmed |}]> (visited w)) w) >>
      reading (fun w => act (emit (WriteVisited (visited w)))) >>
      renderList >>
      renderStamps (Some nm).

(** The click handler of the reset button; [confirmed] is the answer to
    [confirm('Clear all stamps?')]. *)
Definition resetStamps (confirmed : bool) : Cmd :=
  if negb confirmed then skip
  else
    act (set_visited ∅) >>
    reading (fun w => act (emit (WriteVisited (visited w)))) >>
    renderList >>
    renderStamps None >>
    updateCount.

(** *** Selection and map *)

(** [openInNativeMaps]; [apple] is the outcome of the user-agent test
    (false also when reading the user agent throws). The link is built
    from the coordinates of [p]. *)
Definition openInNativeMaps (apple : bool) : Cmd :=
  reading (fun w =>
    let p := match at_index (pools w) (selectedIndex w) with
             | Some p => Some p
             | None => head (pools w)
             end in
    match p with
    | None => skip
    | Some p => act (emit (OpenedMaps p apple))
    end).

Definition panToSelected : Cmd :=
  reading (fun w =>
    if negb (mapReady w) || (len (pools w) =? 0) then skip
    else
      match at_index (pools w) (selectedIndex w) with
      | None => throw                       (* p.lat on undefined *)
      | Some p => act (emit (MarkerMoved p)) >> act (emit (MapCentered p))
      end).

Definition selectIndex (idx : Z) : Cmd :=
  reading (fun w =>
    if len (pools w) =? 0 then skip
    else
      act (set_selectedIndex (Z.rem (idx + len (pools w)) (len (pools w)))) >>
      reading (fun w' => act (emit (WriteSelection (selectedIndex w')))) >>
      renderList >>
      panToSelected).

Definition moveSelection (step : Z) : Cmd :=
  reading (fun w => selectIndex (selectedIndex w + step)).

Definition setupMap : Cmd :=
  reading (fun w =>
    match pools w with
    | [] => skip
    | p0 :: _ => act (emit (MapCreated p0)) >> act (set_mapReady true)
    end).

Definition setView (showStamps : bool) : Cmd :=
  act (set_onStampsView showStamps) >>
  requires listView >> requires passportView >> requires toggleBtn >>
  act (emit (ViewShown showStamps)) >>
  (if showStamps then renderStamps None else skip) >>
  reading (fun w => if mapReady w then act (emit (ResizeScheduled false)) else skip).

(** The click handler of the full-map button. *)
Definition toggleFullMap : Cmd :=
  act (emit FullMapToggled) >>
  reading (fun w => if mapReady w then act (emit (ResizeScheduled true)) else skip).

(** The callbacks handed to [setTimeout]: resize the map and, for [pan],
    recentre it. The callback of [init] tests [map] itself, the other two
    are only scheduled when [map] is set. *)
Definition resizeTimer (pan : bool) : Cmd :=
  reading (fun w =>
    if mapReady w then
      act (emit MapResized) >> (if pan then panToSelected else skip)
    else skip).

(** *** Entry point *)

(** [init], from the outcome of [fetch('pools.json')]: a rejection or a
    response. *)
Definition init (fetched : JsError + Response) : Cmd :=
  match match fetched with
        | inl e => inl e
        | inr response => loadPools response
        end with
  | inl err =>
      act (emit (ConsoleError err)) >>
      whenPresent poolList (act (emit (PoolListText (js "Error loading pools list."))))
  | inr loaded =>
      act (set_pools loaded) >>
      reading (fun w =>
        if len (pools w) =? 0 then
          whenPresent poolList (act (emit (PoolListText (js "No pools configured."))))
        else
          (* Make sure our saved index is within bounds. *)
          reading (fun w1 =>
            if (selectedIndex w1 <? 0) || (selectedIndex w1 >=? len (pools w1))
            then act (set_selectedIndex 0) else skip) >>
          setupMap >>
          reading (fun w2 => selectIndex (selectedIndex w2)) >>
          setView false >>
          updateCount >>
          act (emit (ResizeScheduled true)))
  end.

(** *** The user's actions after start-up *)

Inductive Action :=
| ClickStampChip (now : Z) (nm : jsstring)      (* toggleStamp(name, true) *)
| EditStampDate (nm : jsstring) (d : jsstring)  (* setStampDate(p.name, ..) *)
| ClickReset (confirmed : bool)
| ClickArrow (step : Z)                         (* moveSelection(+-1) *)
| ClickPage (delta : Z)                         (* changeStampsPage(+-1) *)
| ClickToggleView                               (* setView(!onStampsView) *)
| ClickRow                                      (* panToSelected() *)
| ClickFullMap
| ClickOpenMaps (apple : bool)                  (* openInNativeMaps() *)
| TimerFires (pan : bool).

Definition handle (a : Action) : Cmd :=
  match a with
  | ClickStampChip now nm => toggleStamp now nm true
  | EditStampDate nm d => setStampDate nm d
  | ClickReset confirmed => resetStamps confirmed
  | ClickArrow step => moveSelection step
  | ClickPage delta => changeStampsPage delta
  | ClickToggleView => reading (fun w => setView (negb (onStampsView w)))
  | ClickRow => panToSelected
  | ClickFullMap => toggleFullMap
  | ClickOpenMaps apple => openInNativeMaps apple
  | TimerFires pan => resizeTimer pan
  end.

(** The worlds of a session: [app.js] starts with no pools, the list
    view, and no map; the three persisted values are what [storage.js]
    read. *)
Definition startWorld (v : VisitedMap) (sel page : Z) (d : Dom) : World :=
  {| pools := []; visited := v; selectedIndex := sel; currentStampsPage := page;
     onStampsView := false; mapReady := false; dom := d; effects := [] |}.

(** Worlds whose visited map the program made: the first run starts from
    the empty map, a later session starts from the map the previous one
    wrote last (which is the map it held), and every other world comes
    out of [init] or of a handler. *)
Inductive Produced : World -> Prop :=
| produced_first_run sel page d :
    Produced (startWorld ∅ sel page d)
| produced_reload w sel page d :
    Produced w -> Produced (startWorld (visited w) sel page d)
| produced_init w fetched :
    Produced w -> Produced (init fetched w).2
| produced_handle w a :
    Produced w -> Produced (handle a w).2.

(** The invariant of a visit record: a date only when done. *)
Definition dated_only_if_done (r : VisitRecord) : Prop :=
  date r <> None -> done r = true.

(** *** Vocabulary of the statements *)

(** [c] keeps [I]: from a world where [I] holds it ends, normally or not,
    in a world where [I] holds. *)
Definition preserves (I : World -> Prop) (c : Cmd) : Prop :=
  forall w, I w -> I (c w).2.

(** The record that [toggleStamp] writes over [existing] at instant
    [now]. *)
Definition toggled (now : Z) (existing : option VisitRecord) : VisitRecord :=
  if stampedOf existing then {| done := false; date := None |}
  else {| done := true; date := Some (today now) |}.

(** What an effect tells about the selection: the index handed to
    [writeSelection], the pool drawn in the list row, the pool the map
    marker and centre moved to. [e] agrees with index [i] and pool [p]. *)
Definition shows_selection (i : Z) (p : Pool) (e : Effect) : Prop :=
  match e with
  | WriteSelection j => j = i
  | PoolListRow q _ _ => q = p
  | MarkerMoved q => q = p
  | MapCentered q => q = p
  | _ => True
  end.

(** [I] survives any further effect. *)
Definition emit_stable (I : World -> Prop) : Prop :=
  forall e w, I w -> I (emit e w).

(** The visited map is [v]. *)
Definition visited_is (v : VisitedMap) (w : World) : Prop := visited w = v.

(** The selection is [i]. *)
Definition selection_is (i : Z) (w : World) : Prop := selectedIndex w = i.

(** The stamps page is [p] and [p] was handed to [writeStampsPage] right
    after the effects [before]. *)
Definition page_persisted (before : list Effect) (p : Z) (w : World) : Prop :=
  currentStampsPage w = p /\
  exists rest, effects w = before ++ WriteStampsPage p :: rest.

(** The pools are [ps], the first pool [p0] is selected, and every effect
    after [before] agrees with that. *)
Definition first_selected (before : list Effect) (p0 : Pool) (ps : list Pool)
    (w : World) : Prop :=
  pools w = p0 :: ps /\ selectedIndex w = 0 /\
  exists new, effects w = before ++ new /\ Forall (shows_selection 0 p0) new.

(** The usual clamp of [x] into [[lo, hi]]. *)
Definition clamp (lo hi x : Z) : Z := Z.max lo (Z.min x hi).

End Program.

Arguments Pool : clear implicits.
Arguments RawPool : clear implicits.
Arguments Response : clear implicits.
Arguments Card : clear implicits.
Arguments Effect : clear implicits.
Arguments World : clear implicits.
Arguments Cmd : clear implicits.

(** ** [storage.js] *)

Module Storage.

(** Modelled from the spec: the browser storage under [storage.js], which
    is not among the sources; string keys to string values, a missing key
    reads as absent. *)
Abbreviation LocalStorage := (gmap jsstring jsstring).

Section Reads.

(** The three key names and the two deserialisers are the module's own
    choice: [None] is the answer for text that does not denote a value of
    the expected type. *)
Variables visitedKey selectionKey stampsPageKey : jsstring.
Variable parseVisited : jsstring -> option VisitedMap.
Variable parseIndex : jsstring -> option Z.

(** Modelled from the spec: the typed read of one key of [storage.js];
    absent or invalid text yields the default, and the call returns
    ([inr]) instead of throwing ([inl]). *)
Definition readKey {A} (parse : jsstring -> option A) (default : A)
    (key : jsstring) (ls : LocalStorage) : JsError + A :=
  match ls !! key with
  | None => inr default
  | Some raw =>
      match parse raw with
      | Some v => inr v
      | None => inr default
      end
  end.

(** Modelled from the spec: [readVisited] of [storage.js]; corrupt or
    absent data yields an empty map. *)
Definition readVisited (ls : LocalStorage) : JsError + VisitedMap :=
  readKey parseVisited ∅ visitedKey ls.

(** Modelled from the spec: [readSelection] of [storage.js]; default
    index 0. *)
Definition readSelection (ls : LocalStorage) : JsError + Z :=
  readKey parseIndex 0 selectionKey ls.

(** Modelled from the spec: [readStampsPage] of [storage.js]; default
    page 0. *)
Definition readStampsPage (ls : LocalStorage) : JsError + Z :=
  readKey parseIndex 0 stampsPageKey ls.

(** The text under [key] cannot be used: there is none, or it does not
    parse. *)
Definition unusable {A} (parse : jsstring -> option A) (key : jsstring)
    (ls : LocalStorage) : Prop :=
  ls !! key = None \/ exists raw, ls !! key = Some raw /\ parse raw = None.

End Reads.

(** A decimal reader for indices: digits only, [None] otherwise. *)
Fixpoint decimalValue (acc : Z) (s : jsstring) : option Z :=
  match s with
  | [] => Some acc
  | c :: rest =>
      if ((48 <=? c) && (c <=? 57))%N
      then decimalValue (10 * acc + (Z.of_N c - 48)) rest
      else None
  end.

Definition parseDecimal (s : jsstring) : option Z :=
  match s with
  | [] => None
  | _ => decimalValue 0 s
  end.

(** A reader for the visited map that knows the empty object only. *)
Definition parseEmptyObject (s : jsstring) : option VisitedMap :=
  if bool_decide (s = js "{}") then Some ∅ else None.

End Storage.

(** ** Sample data *)

Module Sample.

Definition allPresent : Dom :=
  {| poolList := true; countBadge := true; listView := true;
     passportView := true; toggleBtn := true; passportGrid := true;
     passportPageLabel := true; prevPassportPage := true;
     nextPassportPage := true |}.

(** Coordinates in microdegrees; the data file gives them as numbers. *)
Definition pool (nm : string) (la lo : Z) : Pool Z :=
  {| name := js nm; lat := la; lng := lo |}.

Definition fivePools : list (Pool Z) :=
  [ pool "Bronte Baths" (-33905200) 151268500;
    pool "Dawn Fraser Baths" (-33853300) 151173300;
    pool "Maccallum Pool" (-33845700) 151228300;
    pool "Murray Rose Pool" (-33872200) 151247800;
    pool "Wylie's Baths" (-33925300) 151259200 ].

Definition sevenPools : list (Pool Z) :=
  fivePools ++ [ pool "Clovelly Pool" (-33914400) 151266900;
                 pool "Greenwich Baths" (-33841700) 151183300 ].

(** A session after start-up: list view, map set up, nothing stamped. *)
Definition session (ps : list (Pool Z)) (sel page : Z) : World Z :=
  {| pools := ps; visited := ∅; selectedIndex := sel; currentStampsPage := page;
     onStampsView := false; mapReady := true; dom := allPresent; effects := [] |}.

(** Noon UTC of 2025-06-01, in epoch milliseconds. *)
Definition noon20250601 : Z := 1748779200000.

(** A world at page load in which [storage.js] read the empty map, the
    selection [sel] and page 0. *)
Definition firstRun (sel : Z) : World Z :=
  startWorld ∅ sel 0 allPresent.

(** The data file already holds numbers: [Number(x)] is [x]. *)
Definition asNumber (x : Z) : Z := x.

Definition rawOf (p : Pool Z) : RawPool Z :=
  {| raw_name := name p; raw_lat := lat p; raw_lng := lng p |}.

Definition okResponse : Response Z :=
  {| ok := true; status := 200; json_body := inr (map rawOf fivePools) |}.

Definition notFound : Response Z :=
  {| ok := false; status := 404; json_body := inr [] |}.

(** A storage whose selection entry is not a number. *)
Definition brokenSelection : Storage.LocalStorage :=
  {[ js "selected" := js "abc" ]}.

End Sample.

(** ** Sessions, effects and the date editor *)

Section Sessions.

Context {number json : Type}.
Variable Number : json -> number.

(** Every mount point that [app.js] looks up is in the document. *)
Definition all_mounted (w : World number) : Prop :=
  dom w = Sample.allPresent.

(** The selection is an index of the pool list, or there is no pool. *)
Definition selection_ok (w : World number) : Prop :=
  pools w = [] \/ 0 <= selectedIndex w < len (pools w).

(** The arguments that the listeners of [app.js] pass: the arrows call
    [moveSelection(1)] or [moveSelection(-1)], the page buttons
    [changeStampsPage(1)] or [changeStampsPage(-1)]. *)
Definition from_listener (a : Action) : Prop :=
  match a with
  | ClickArrow step => step = 1 \/ step = -1
  | ClickPage delta => delta = 1 \/ delta = -1
  | _ => True
  end.

(** The worlds of a session in a complete document: the page loads,
    [init] runs, the listeners fire. *)
Inductive Session : World number -> Prop :=
| session_load v sel page :
    Session (startWorld v sel page Sample.allPresent)
| session_init w fetched :
    Session w -> Session (init Number fetched w).2
| session_event w a :
    Session w -> from_listener a -> Session (handle a w).2.

(** A world in which no redraw can fail: the document is complete and
    the selection is an index of the list (or the list is empty). *)
Definition healthy (w : World number) : Prop :=
  all_mounted w /\ selection_ok w.

(** The pools are [ps], the selection is [i] and the map is set up. *)
Definition started (ps : list (Pool number)) (i : Z) (w : World number) : Prop :=
  pools w = ps /\ selectedIndex w = i /\ mapReady w = true.

(** [c] is safe under [I]: from a world where [I] holds it completes
    normally, in a world where [I] holds. *)
Definition safe (I : World number -> Prop) (c : Cmd number) : Prop :=
  forall w, I w -> (c w).1 = Normal /\ I (c w).2.

(** The effects of [w] are [before] followed by effects that all satisfy
    [P]. *)
Definition extends_with (P : Effect number -> Prop) (before : list (Effect number))
    (w : World number) : Prop :=
  exists new, effects w = before ++ new /\ Forall P new.

(** [e] is not a call of [writeVisited]. *)
Definition not_visited_write (e : Effect number) : Prop :=
  match e with
  | WriteVisited _ => False
  | _ => True
  end.

(** [e] neither writes the selection nor touches the map. *)
Definition not_selection_effect (e : Effect number) : Prop :=
  match e with
  | WriteSelection _ => False
  | MapCreated _ => False
  | MarkerMoved _ => False
  | MapCentered _ => False
  | _ => True
  end.

(** If [e] is a call of [writeStampsPage], its page is a page of the
    grid for the pools [ps]. *)
Definition page_write_valid (ps : list (Pool number)) (e : Effect number) : Prop :=
  match e with
  | WriteStampsPage p => 0 <= p <= totalPages ps - 1
  | _ => True
  end.

(** What [e] draws agrees with itself: a date is shown only on a stamp
    that is drawn stamped, and it is never the empty text. *)
Definition date_only_on_stamp (e : Effect number) : Prop :=
  match e with
  | PoolListRow _ stamped d => d <> Some [] /\ (d <> None -> stamped = true)
  | GridCard c =>
      card_date c <> Some [] /\ (card_date c <> None -> card_stamped c = true)
  | _ => True
  end.

(** The visited map is [v] and [v] was handed to [writeVisited] right
    after the effects [before]. *)
Definition visited_persisted (before : list (Effect number)) (v : VisitedMap)
    (w : World number) : Prop :=
  visited w = v /\
  exists rest, effects w = before ++ WriteVisited v :: rest.

(** The selection is [i] and [i] was handed to [writeSelection] right
    after the effects [before]. *)
Definition selection_persisted (before : list (Effect number)) (i : Z)
    (w : World number) : Prop :=
  selectedIndex w = i /\
  exists rest, effects w = before ++ WriteSelection i :: rest.

(** The pools are [ps] and the effects after [before] all satisfy
    [P]. *)
Definition emitting (P : Effect number -> Prop) (ps : list (Pool number))
    (before : list (Effect number)) (w : World number) : Prop :=
  pools w = ps /\ extends_with P before w.

(** The listeners that change stamps. *)
Definition is_stamp_action (a : Action) : bool :=
  match a with
  | ClickStampChip _ _ | EditStampDate _ _ | ClickReset _ => true
  | _ => false
  end.

(** The listeners that move the selection. *)
Definition is_arrow (a : Action) : bool :=
  match a with
  | ClickArrow _ => true
  | _ => false
  end.

(** The listeners that may recentre the map. *)
Definition moves_map (a : Action) : bool :=
  match a with
  | ClickArrow _ | ClickRow | TimerFires _ => true
  | _ => false
  end.

(** What the listener of [a] may do to its collaborators when the pools
    are [ps]. *)
Definition allowed (a : Action) (ps : list (Pool number)) (e : Effect number) : Prop :=
  match e with
  | WriteVisited _ => is_stamp_action a = true
  | WriteSelection _ => is_arrow a = true
  | WriteStampsPage p => 0 <= p <= totalPages ps - 1
  | PoolListRow p stamped d =>
      p ∈ ps /\ d <> Some [] /\ (d <> None -> stamped = true)
  | GridCard c =>
      card_pool c ∈ ps /\ card_date c <> Some []
      /\ (card_date c <> None -> card_stamped c = true)
  | CountBadge _ total => total = len ps
  | PageLabel page total => total = totalPages ps /\ 1 <= page <= total
  | MarkerMoved p => p ∈ ps /\ moves_map a = true
  | MapCentered p => p ∈ ps /\ moves_map a = true
  | OpenedMaps p _ => p ∈ ps
  | MapCreated _ => False
  | PoolListText _ => False
  | ConsoleError _ => False
  | _ => True
  end.

(** Every pool that [e] draws, marks or opens is one of [ps]. *)
Definition shows_loaded_pool (ps : list (Pool number)) (e : Effect number) : Prop :=
  match e with
  | PoolListRow p _ _ => p ∈ ps
  | GridCard c => card_pool c ∈ ps
  | MarkerMoved p => p ∈ ps
  | MapCentered p => p ∈ ps
  | OpenedMaps p _ => p ∈ ps
  | _ => True
  end.

(** The count badge and the page label of [e] give the totals of
    [ps]. *)
Definition totals_of (ps : list (Pool number)) (e : Effect number) : Prop :=
  match e with
  | CountBadge _ total => total = len ps
  | PageLabel page total => total = totalPages ps /\ 1 <= page <= total
  | _ => True
  end.

(** The pages of the grid, first to last. *)
Definition allPages (ps : list (Pool number)) : list (list (Pool number)) :=
  map (fun k => pagePools ps (Z.of_nat k)) (seq 0 (Z.to_nat (totalPages ps))).

(** *** The date editor: the click listener on a card's date *)

(** The pattern of [/^\\d{4}-\\d{2}-\\d{2}$/] as written in [app.js]: in
    a regular expression literal the two characters [\\] are an escaped
    backslash, so each group is one backslash (92) followed by the letter
    d (100) repeated; 45 is the hyphen. *)
Definition datePattern : list (N * nat) :=
  [ (92%N, 1%nat); (100%N, 4%nat); (45%N, 1%nat);
    (92%N, 1%nat); (100%N, 2%nat); (45%N, 1%nat);
    (92%N, 1%nat); (100%N, 2%nat) ].

(** [n] times the code unit [c] at the head of [s]: what is left. *)
Fixpoint matchRun (c : N) (n : nat) (s : jsstring) : option jsstring :=
  match n with
  | O => Some s
  | S n' =>
      match s with
      | x :: rest => if (x =? c)%N then matchRun c n' rest else None
      | [] => None
      end
  end.

(** A pattern anchored at both ends ([^] and [$], no flags). *)
Fixpoint matchAnchored (pat : list (N * nat)) (s : jsstring) : bool :=
  match pat with
  | [] => falsy s
  | (c, n) :: pat' =>
      match matchRun c n s with
      | Some rest => matchAnchored pat' rest
      | None => false
      end
  end.

(** [/^\\d{4}-\\d{2}-\\d{2}$/.test(s)] *)
Definition datePatternTest (s : jsstring) : bool :=
  matchAnchored datePattern s.

(** How a click on a date ends: the stamp is not stamped, the prompt gave
    nothing, the alert was shown, or [setStampDate] was called. *)
Inductive DateEdit := NotStamped | NoAnswer | Refused | Passed.

(** The click listener that [renderStamps] puts on the date of the card
    [c]; [answer] is what [prompt] returns ([None] for [null]). *)
Definition onDateClick (c : Card number) (answer : option jsstring)
    (w : World number) : DateEdit * (Completion * World number) :=
  if negb (card_stamped c) then (NotStamped, (Normal, w))
  else
    match answer with
    | None => (NoAnswer, (Normal, w))
    | Some next =>
        if falsy next then (NoAnswer, (Normal, w))
        else
          let trimmed := trim next in
          if negb (datePatternTest trimmed) then (Refused, (Normal, w))
          else (Passed, setStampDate (name (card_pool c)) trimmed w)
    end.

End Sessions.

(** ** More sample data *)

Module Cases.

(** A data file with an empty array. *)
Definition emptyFile : Response Z :=
  {| ok := true; status := 200; json_body := inr [] |}.

(** The error that [loadPools] throws for the 404 response. *)
Definition notFoundError : JsError :=
  {| message := js "Failed to load pools.json (status 404)" |}.

(** A card of a stamped pool, as [renderStamps] draws it. *)
Definition stampedCard : Card Z :=
  {| card_pool := Sample.pool "Bronte Baths" (-33905200) 151268500;
     card_pop := false; card_stamped := true;
     card_date := Some (js "2025-06-01") |}.

(** The world after start-up with five pools and a stale selection. *)
Definition afterStartUp : World Z :=
  (init Sample.asNumber (inr Sample.okResponse) (Sample.firstRun 9)).2.

End Cases.

(** ** Strings and dates *)

Lemma trimStart_blank (s : jsstring) : falsy (trimStart s) = isBlank s.
Proof.
  induction s as [|c s IH]; [reflexivity|]. simpl.
  destruct (isWhiteSpace c); [exact IH | reflexivity].
Qed.

Lemma isBlank_app (s t : jsstring) : isBlank (s ++ t) = isBlank s && isBlank t.
Proof. unfold isBlank. apply forallb_app. Qed.

Lemma isBlank_rev (s : jsstring) : isBlank (rev s) = isBlank s.
Proof.
  induction s as [|c s IH]; [reflexivity|].
  simpl rev. rewrite isBlank_app, IH. simpl.
  rewrite andb_true_r. apply andb_comm.
Qed.

Lemma falsy_rev (s : jsstring) : falsy (rev s) = falsy s.
Proof.
  destruct s as [|c s]; [reflexivity|]. simpl.
  destruct (rev s); reflexivity.
Qed.

Lemma trimStart_not_blank (s : jsstring) :
  isBlank s = false -> isBlank (trimStart s) = false.
Proof.
  induction s as [|c s IH]; [discriminate|]. simpl.
  destruct (isWhiteSpace c) eqn:E; simpl.
  - exact IH.
  - rewrite E. reflexivity.
Qed.

(** [trim] leaves nothing exactly when the string is blank. *)
Lemma trim_blank (s : jsstring) : falsy (trim s) = isBlank s.
Proof.
  unfold trim, trimEnd. rewrite falsy_rev, trimStart_blank, isBlank_rev.
  destruct (isBlank s) eqn:E.
  - rewrite <- trimStart_blank in E. destruct (trimStart s); [reflexivity | discriminate].
  - apply trimStart_not_blank. exact E.
Qed.

Lemma falsy_blank (s : jsstring) : falsy s = true -> isBlank s = true.
Proof. destruct s; [reflexivity | discriminate]. Qed.

(** What [trimStart] removes is a blank prefix. *)
Lemma trimStart_prefix (s : jsstring) :
  exists pre, s = pre ++ trimStart s /\ isBlank pre = true.
Proof.
  induction s as [|c s [pre [Hs Hpre]]].
  - exists []. split; reflexivity.
  - simpl. destruct (isWhiteSpace c) eqn:E.
    + exists (c :: pre). split; [simpl; congruence | simpl; rewrite E; exact Hpre].
    + exists []. split; reflexivity.
Qed.

(** [trim] removes a blank prefix and a blank suffix, nothing else. *)
Lemma trim_decompose (s : jsstring) :
  exists pre post,
    s = pre ++ trim s ++ post /\ isBlank pre = true /\ isBlank post = true.
Proof.
  destruct (trimStart_prefix s) as [pre [Hs Hpre]].
  destruct (trimStart_prefix (rev (trimStart s))) as [tsop [Hr Hpost]].
  exists pre, (rev tsop). repeat split.
  - rewrite Hs at 1. f_equal. unfold trim, trimEnd.
    rewrite <- rev_app_distr, <- Hr, rev_involutive. reflexivity.
  - exact Hpre.
  - rewrite isBlank_rev. exact Hpost.
Qed.



Lemma digits_length (w : nat) (n : Z) : length (JsDate.digits w n) = w.
Proof.
  revert n. induction w as [|w IH]; intros n; simpl; [reflexivity|].
  rewrite length_app, IH. simpl. lia.
Qed.




(** ** Commands *)

Section Commands.

Context {number : Type}.
Implicit Types (w : World number) (c : Cmd number) (I : World number -> Prop).

Lemma andThen_act f c w : andThen (act f) c w = c (f w).
Proof. reflexivity. Qed.

Lemma andThen_reading_act (g : World number -> World number -> World number) c w :
  andThen (reading (fun w0 => act (g w0))) c w = c (g w w).
Proof. reflexivity. Qed.

Lemma whenPresent_true present c w :
  present (dom w) = true -> whenPresent present c w = c w.
Proof. intros H. unfold whenPresent. now rewrite H. Qed.

Lemma whenPresent_false present c w :
  present (dom w) = false -> whenPresent present c w = (Normal, w).
Proof. intros H. unfold whenPresent. now rewrite H. Qed.

Lemma preserves_skip I : preserves I skip.
Proof. intros w H. exact H. Qed.

Lemma preserves_throw I : preserves I throw.
Proof. intros w H. exact H. Qed.

Lemma preserves_act I f : (forall w, I w -> I (f w)) -> preserves I (act f).
Proof. intros Hf w H. apply Hf, H. Qed.

Lemma preserves_requires I present : preserves I (requires present).
Proof. intros w H. unfold requires. destruct (present (dom w)); exact H. Qed.

Lemma preserves_andThen I c1 c2 :
  preserves I c1 -> preserves I c2 -> preserves I (andThen c1 c2).
Proof.
  intros H1 H2 w H. unfold andThen.
  specialize (H1 w H). destruct (c1 w) as [[|] w1]; simpl in *.
  - apply H2, H1.
  - exact H1.
Qed.

Lemma preserves_reading I (k : World number -> Cmd number) :
  (forall w0, I w0 -> I (k w0 w0).2) -> preserves I (reading k).
Proof. intros Hk w H. apply Hk, H. Qed.

Lemma preserves_reading_any I (k : World number -> Cmd number) :
  (forall w0, preserves I (k w0)) -> preserves I (reading k).
Proof. intros Hk w H. apply Hk, H. Qed.

Lemma preserves_whenPresent I present c :
  preserves I c -> preserves I (whenPresent present c).
Proof.
  intros Hc w H. unfold whenPresent.
  destruct (present (dom w)); [apply Hc, H | exact H].
Qed.

Lemma preserves_emits I (A : Type) (f : A -> Effect number) (l : list A) w :
  (forall e w', I w' -> I (emit e w')) ->
  I w -> I (fold_left (fun acc x => emit (f x) acc) l w).
Proof.
  intros He. revert w. induction l as [|x l IH]; intros w H; simpl.
  - exact H.
  - apply IH, He, H.
Qed.

End Commands.

(** Break a goal [preserves I c] down along the shape of [c]; what is
    left are the state updates. *)
Ltac preserve :=
  repeat match goal with
    | |- preserves _ skip => apply preserves_skip
    | |- preserves _ throw => apply preserves_throw
    | |- preserves _ (requires _) => apply preserves_requires
    | |- preserves _ (andThen _ _) => apply preserves_andThen
    | |- preserves _ (whenPresent _ _) => apply preserves_whenPresent
    | |- preserves _ (reading _) => apply preserves_reading_any; intros ?
    | |- preserves _ (if ?b then _ else _) => destruct b
    | |- preserves _ (match ?x with _ => _ end) => destruct x
    end.

(** The same, but a command that reads the world is left whole, for a
    proof that needs what [I] says about the world read. *)
Ltac preserve_seq :=
  repeat match goal with
    | |- preserves _ skip => apply preserves_skip
    | |- preserves _ throw => apply preserves_throw
    | |- preserves _ (requires _) => apply preserves_requires
    | |- preserves _ (andThen _ _) => apply preserves_andThen
    | |- preserves _ (whenPresent _ _) => apply preserves_whenPresent
    | |- preserves _ (if ?b then _ else _) => destruct b
    end.

(** ** The frame of the rendering and selection functions: [visited] *)

Section VisitedFrame.

Context {number json : Type}.
Variable Number : json -> number.
Variable v : VisitedMap.

Local Abbreviation holds := (@visited_is number v).

Ltac frame :=
  preserve;
  try match goal with
    | |- preserves _ (act _) =>
        apply preserves_act; intros ? ?; first
          [ assumption
          | apply preserves_emits; [intros ? ? ?; assumption | assumption] ]
    end.

Lemma updateCount_frame : preserves holds updateCount.
Proof. unfold updateCount. frame. Qed.

Lemma renderList_frame : preserves holds renderList.
Proof. unfold renderList. frame; apply updateCount_frame. Qed.

Lemma renderStamps_frame popName : preserves holds (renderStamps popName).
Proof. unfold renderStamps. frame. Qed.

Lemma changeStampsPage_frame delta : preserves holds (changeStampsPage delta).
Proof. unfold changeStampsPage. frame. apply renderStamps_frame. Qed.

Lemma panToSelected_frame : preserves holds panToSelected.
Proof. unfold panToSelected. frame. Qed.

Lemma selectIndex_frame idx : preserves holds (selectIndex idx).
Proof.
  unfold selectIndex. frame; [apply renderList_frame | apply panToSelected_frame].
Qed.

Lemma moveSelection_frame step : preserves holds (moveSelection step).
Proof. unfold moveSelection. frame. apply selectIndex_frame. Qed.

Lemma openInNativeMaps_frame apple : preserves holds (openInNativeMaps apple).
Proof. unfold openInNativeMaps. frame. Qed.

Lemma toggleFullMap_frame : preserves holds toggleFullMap.
Proof. unfold toggleFullMap. frame. Qed.

Lemma resizeTimer_frame pan : preserves holds (resizeTimer pan).
Proof. unfold resizeTimer. frame. apply panToSelected_frame. Qed.

Lemma setupMap_frame : preserves holds setupMap.
Proof. unfold setupMap. frame. Qed.

Lemma setView_frame showStamps : preserves holds (setView showStamps).
Proof. unfold setView. frame. apply renderStamps_frame. Qed.

Lemma init_frame fetched : preserves holds (init Number fetched).
Proof.
  unfold init. frame;
    first [ apply setupMap_frame | apply selectIndex_frame
          | apply setView_frame | apply updateCount_frame ].
Qed.

End VisitedFrame.

(** ** Stamps: [toggleStamp], [setStampDate], reset *)

Section Stamps.

Context {number : Type}.
Implicit Types (w : World number) (nm other d : jsstring).

Lemma renderList_visited w : visited (renderList w).2 = visited w.
Proof. exact (renderList_frame (visited w) w eq_refl). Qed.

Lemma renderStamps_visited popName w :
  visited (renderStamps popName w).2 = visited w.
Proof. exact (renderStamps_frame (visited w) popName w eq_refl). Qed.

(** The tail shared by the three mutators: persist, then redraw. *)
Lemma persist_and_redraw_frame (v : VisitedMap) (redraw : Cmd number) :
  preserves (visited_is v) redraw ->
  preserves (visited_is v)
    (andThen (reading (fun w => act (emit (WriteVisited (visited w))))) redraw).
Proof.
  intros Hr. preserve; [|exact Hr].
  apply preserves_act. intros w H. exact H.
Qed.

(** [toggleStamp] overwrites the entry of [nm] and nothing else. *)
Lemma toggleStamp_visited now nm animate w :
  visited (toggleStamp now nm animate w).2
  = <[nm := toggled now (visited w !! nm)]> (visited w).
Proof.
  unfold toggleStamp. rewrite andThen_act.
  match goal with |- visited (?c ?w1).2 = ?v =>
    apply (persist_and_redraw_frame v
             (andThen renderList (renderStamps (if animate then Some nm else None))))
  end.
  - preserve; [apply renderList_frame | apply renderStamps_frame].
  - unfold toggled. destruct (stampedOf (visited w !! nm)); reflexivity.
Qed.

(** [setStampDate] overwrites the entry of [nm] when the input is not
    blank, and does nothing at all when it is. *)
Lemma setStampDate_blank nm d w :
  isBlank d = true -> setStampDate nm d w = (Normal, w).
Proof.
  intros Hb. unfold setStampDate.
  destruct (falsy d); [reflexivity|].
  rewrite trim_blank, Hb. reflexivity.
Qed.

Lemma setStampDate_visited nm d w :
  isBlank d = false ->
  visited (setStampDate nm d w).2
  = <[nm := {| done := true; date := Some (trim d) |}]> (visited w).
Proof.
  intros Hb. unfold setStampDate.
  destruct (falsy d) eqn:Hd.
  { apply falsy_blank in Hd. congruence. }
  rewrite trim_blank, Hb. rewrite andThen_act.
  match goal with |- visited (?c ?w1).2 = ?v =>
    apply (persist_and_redraw_frame v (andThen renderList (renderStamps (Some nm))))
  end.
  - preserve; [apply renderList_frame | apply renderStamps_frame].
  - reflexivity.
Qed.

Lemma resetStamps_visited confirmed w :
  visited (resetStamps confirmed w).2 = if confirmed then ∅ else visited w.
Proof.
  unfold resetStamps. destruct confirmed; [|reflexivity].
  change (negb true) with false. cbv iota.
  rewrite andThen_act.
  match goal with |- visited (?c ?w1).2 = ?v =>
    apply (persist_and_redraw_frame v
             (andThen renderList (andThen (renderStamps None) updateCount)))
  end.
  - preserve; [apply renderList_frame | apply renderStamps_frame | apply updateCount_frame].
  - reflexivity.
Qed.

(** The handlers that do not touch stamps keep the map. *)
Lemma handle_visited (a : Action) w :
  visited (handle a w).2 =
  match a with
  | ClickStampChip now nm => <[nm := toggled now (visited w !! nm)]> (visited w)
  | EditStampDate nm d =>
      if isBlank d then visited w
      else <[nm := {| done := true; date := Some (trim d) |}]> (visited w)
  | ClickReset confirmed => if confirmed then ∅ else visited w
  | _ => visited w
  end.
Proof.
  destruct a as [now nm | nm d | confirmed | step | delta | | | | apple | pan];
    simpl handle.
  - apply toggleStamp_visited.
  - destruct (isBlank d) eqn:Hb.
    + rewrite setStampDate_blank by exact Hb. reflexivity.
    + apply setStampDate_visited. exact Hb.
  - apply resetStamps_visited.
  - exact (moveSelection_frame (visited w) step w eq_refl).
  - exact (changeStampsPage_frame (visited w) delta w eq_refl).
  - unfold reading. exact (setView_frame (visited w) _ w eq_refl).
  - exact (panToSelected_frame (visited w) w eq_refl).
  - exact (toggleFullMap_frame (visited w) w eq_refl).
  - exact (openInNativeMaps_frame (visited w) apple w eq_refl).
  - exact (resizeTimer_frame (visited w) pan w eq_refl).
Qed.

End Stamps.

Section StampClaims.

Context {number json : Type}.
Variable Number : json -> number.
Implicit Types (w : World number) (nm other d : jsstring).


(** C3, amended. [setStampDate] does nothing at all for an empty or
    white-space-only input; for every other input, whatever it spells, it
    sets the pool's record to visited with the input stripped of leading
    and trailing white space as the date. *)
Theorem setStampDate_blank_or_trimmed nm d w :
  if isBlank d then setStampDate nm d w = (Normal, w)
  else visited (setStampDate nm d w).2
       = <[nm := {| done := true; date := Some (trim d) |}]> (visited w).
Proof.
  destruct (isBlank d) eqn:Hb.
  - apply setStampDate_blank, Hb.
  - apply setStampDate_visited, Hb.
Qed.


(** Every mutation keeps the invariant, whatever map it starts from. *)
Lemma handle_keeps_dated (a : Action) w :
  map_Forall (fun _ r => dated_only_if_done r) (visited w) ->
  map_Forall (fun _ r => dated_only_if_done r) (visited (handle a w).2).
Proof.
  intros Hw. rewrite handle_visited.
  destruct a as [now nm | nm d | confirmed | step | delta | | | | apple | pan];
    try exact Hw.
  - apply map_Forall_insert_2; [|exact Hw].
    unfold toggled, dated_only_if_done.
    destruct (stampedOf _); simpl; congruence.
  - destruct (isBlank d); [exact Hw|].
    apply map_Forall_insert_2; [|exact Hw]. intros _. reflexivity.
  - destruct confirmed; [apply map_Forall_empty | exact Hw].
Qed.

(** C6. In every visited map that the program produced (from the empty
    map by [toggleStamp], [setStampDate] and reset, across sessions) each
    record has a date only if it is done. *)
Theorem produced_records_dated_only_if_done w :
  Produced Number w ->
  map_Forall (fun _ r => dated_only_if_done r) (visited w).
Proof.
  induction 1 as [sel page dm | w sel page dm _ IH | w fetched _ IH | w a _ IH].
  - apply map_Forall_empty.
  - exact IH.
  - rewrite (init_frame Number (visited w) fetched w eq_refl). exact IH.
  - apply handle_keeps_dated, IH.
Qed.

End StampClaims.

(** ** The passport grid: pages *)

Section Pagination.

Context {number : Type}.
Implicit Types (w : World number) (ps : list (Pool number)).

Lemma ceil_quotient_3 (a : Z) : ceil_quotient a 3 = (a + 2) / 3.
Proof.
  unfold ceil_quotient, Qceiling, Qfloor, Qdiv, Qmult, Qinv, Qopp, inject_Z. simpl.
  Z.to_euclidean_division_equations; lia.
Qed.

Lemma len_nonneg {A} (l : list A) : 0 <= len l.
Proof. unfold len. lia. Qed.

Lemma totalPages_eq ps : totalPages ps = Z.max 1 ((len ps + 2) / 3).
Proof. unfold totalPages, stampsPerPage. now rewrite ceil_quotient_3. Qed.

Lemma totalPages_pos ps : 1 <= totalPages ps.
Proof. unfold totalPages. lia. Qed.

(** With at least one pool, [totalPages] is the least number of pages of
    three that hold them all. *)
Lemma totalPages_least ps :
  1 <= len ps ->
  3 * (totalPages ps - 1) < len ps <= 3 * totalPages ps.
Proof.
  intros Hp. rewrite totalPages_eq.
  Z.to_euclidean_division_equations; lia.
Qed.

Lemma len_slice {A} (l : list A) (start end_ : Z) :
  0 <= start -> 0 <= end_ ->
  len (slice l start end_) = Z.max 0 (Z.min end_ (len l) - Z.min start (len l)).
Proof.
  intros Hs He. unfold slice.
  destruct (Z.ltb_spec start 0); [lia|].
  destruct (Z.ltb_spec end_ 0); [lia|].
  unfold len. rewrite length_take, length_drop. lia.
Qed.

Lemma len_pagePools ps (page : Z) :
  0 <= page ->
  len (pagePools ps page) = Z.max 0 (Z.min 3 (len ps - 3 * page)).
Proof.
  intros Hp. unfold pagePools, stampsPerPage.
  rewrite len_slice by lia. pose proof (len_nonneg ps). lia.
Qed.

Lemma clampPage_clamp (total page : Z) :
  1 <= total -> clampPage total page = clamp 0 (total - 1) page.
Proof.
  intros Ht. unfold clampPage, clamp.
  destruct (Z.ltb_spec page 0).
  - destruct (Z.gtb_spec 0 (total - 1)); lia.
  - destruct (Z.gtb_spec page (total - 1)); lia.
Qed.

Lemma page_persisted_emit (before : list (Effect number)) (p : Z) :
  emit_stable (page_persisted before p).
Proof.
  intros e w [Hp [rest Hr]]. split; [exact Hp|].
  exists (rest ++ [e]). simpl. rewrite Hr, <- app_assoc. reflexivity.
Qed.

(** What [renderStamps] leaves in [currentStampsPage], and that it hands
    this value to [writeStampsPage] before it draws anything. *)
Lemma renderStamps_page popName w :
  passportGrid (dom w) = true ->
  page_persisted (effects w)
    (clampPage (totalPages (pools w)) (currentStampsPage w))
    (renderStamps popName w).2.
Proof.
  intros Hg. unfold renderStamps. rewrite (whenPresent_true _ _ _ Hg).
  rewrite andThen_reading_act.
  rewrite (andThen_reading_act (fun w0 => emit (WriteStampsPage (currentStampsPage w0)))).
  match goal with |- page_persisted ?b ?p (?c ?w2).2 =>
    assert (Hc : preserves (page_persisted b p) c)
  end.
  { preserve; apply preserves_act; intros wx Hx;
      first [ apply page_persisted_emit; exact Hx
            | apply preserves_emits; [apply page_persisted_emit | exact Hx] ]. }
  apply Hc. split; [reflexivity|]. exists []. reflexivity.
Qed.

Lemma emits_fold (A : Type) (f : A -> Effect number) (l : list A) w :
  fold_left (fun acc x => emit (f x) acc) l w
  = {| pools := pools w; visited := visited w; selectedIndex := selectedIndex w;
       currentStampsPage := currentStampsPage w; onStampsView := onStampsView w;
       mapReady := mapReady w; dom := dom w;
       effects := effects w ++ map f l |}.
Proof.
  revert w. induction l as [|x l IH]; intros w; simpl.
  - rewrite app_nil_r. now destruct w.
  - rewrite IH. simpl. now rewrite <- app_assoc.
Qed.

(** All of [renderStamps] when the grid is in the document: the clamped
    page is stored and written, the grid is redrawn with the cards of
    that page, and the label and the two buttons are updated where they
    exist. *)
Lemma renderStamps_draws popName w :
  passportGrid (dom w) = true ->
  let total := totalPages (pools w) in
  let page := clampPage total (currentStampsPage w) in
  renderStamps popName w
  = (Normal,
     {| pools := pools w; visited := visited w; selectedIndex := selectedIndex w;
        currentStampsPage := page; onStampsView := onStampsView w;
        mapReady := mapReady w; dom := dom w;
        effects :=
          effects w
          ++ [WriteStampsPage page; GridCleared]
          ++ map (fun p => GridCard (cardOf (visited w) popName p))
                 (pagePools (pools w) page)
          ++ (if passportPageLabel (dom w) then [PageLabel (page + 1) total] else [])
          ++ (if prevPassportPage (dom w) then [PrevDisabled (page =? 0)] else [])
          ++ (if nextPassportPage (dom w)
              then [NextDisabled (page =? total - 1)] else []) |}).
Proof.
  intros Hg total page. subst total page. unfold renderStamps.
  rewrite (whenPresent_true _ _ _ Hg).
  destruct w as [ps v sel cur view ready [e1 e2 e3 e4 e5 grid label prev next] effs].
  unfold andThen, reading, act, whenPresent. simpl.
  rewrite emits_fold. simpl.
  destruct label, prev, next; unfold emit; simpl;
    rewrite <- ?app_assoc; simpl; rewrite ?app_nil_r; reflexivity.
Qed.

(** Without the grid element [renderStamps] returns at once. *)
Lemma renderStamps_no_grid popName w :
  passportGrid (dom w) = false -> renderStamps popName w = (Normal, w).
Proof. intros Hg. unfold renderStamps. now apply whenPresent_false. Qed.

(** C4, amended. With at least one pool, [totalPages] is the ceiling of
    P/3 (the least T with P <= 3T) and the last page holds
    P - 3(totalPages - 1) pools, between 1 and 3; with no pool there is
    one page and it is empty. *)
Theorem stamps_pages_of_three ps :
  if len ps =? 0 then
    totalPages ps = 1 /\ pagePools ps (totalPages ps - 1) = []
  else
    3 * (totalPages ps - 1) < len ps <= 3 * totalPages ps
    /\ len (pagePools ps (totalPages ps - 1)) = len ps - 3 * (totalPages ps - 1)
    /\ 1 <= len (pagePools ps (totalPages ps - 1)) <= 3.
Proof.
  destruct (Z.eqb_spec (len ps) 0) as [H0|H0].
  - destruct ps; [|discriminate]. split; reflexivity.
  - pose proof (len_nonneg ps).
    pose proof (totalPages_least ps ltac:(lia)) as Ht.
    pose proof (totalPages_pos ps).
    rewrite len_pagePools by lia. lia.
Qed.

(** C5. When the grid is in the document, [renderStamps] clamps the page
    into [0, totalPages - 1] (an in-range page is kept, a page below
    becomes 0, a page above becomes the last) and hands the clamped value
    to [writeStampsPage]. *)
Theorem renderStamps_clamps_and_persists popName w :
  passportGrid (dom w) = true ->
  currentStampsPage (renderStamps popName w).2
    = clamp 0 (totalPages (pools w) - 1) (currentStampsPage w)
  /\ 0 <= currentStampsPage (renderStamps popName w).2 <= totalPages (pools w) - 1
  /\ exists rest,
       effects (renderStamps popName w).2
       = effects w
           ++ WriteStampsPage (clamp 0 (totalPages (pools w) - 1) (currentStampsPage w))
           :: rest.
Proof.
  intros Hg. destruct (renderStamps_page popName w Hg) as [Hp Hr].
  pose proof (totalPages_pos (pools w)) as Ht.
  rewrite <- (clampPage_clamp _ (currentStampsPage w) Ht).
  repeat split; try exact Hp; try exact Hr;
    rewrite Hp, (clampPage_clamp _ _ Ht); unfold clamp; lia.
Qed.

End Pagination.

(** ** Selection *)

Section Selection.

Context {number json : Type}.
Variable Number : json -> number.
Implicit Types (w : World number) (ps : list (Pool number)).

Lemma andThen_reading (k : World number -> Cmd number) (c : Cmd number) w :
  andThen (reading k) c w = andThen (k w) c w.
Proof. reflexivity. Qed.

Lemma len_cons_eqb {A} (x : A) (l : list A) : (len (x :: l) =? 0) = false.
Proof. reflexivity. Qed.

Lemma len_pos_iff {A} (l : list A) : l <> [] <-> 0 < len l.
Proof. destruct l; unfold len; simpl; split; (congruence || lia). Qed.

(** *** What the redraws keep *)

Section EmitOnly.

Variable I : World number -> Prop.
Hypothesis I_emit : emit_stable I.

Lemma updateCount_preserves : preserves I updateCount.
Proof. unfold updateCount. preserve. apply preserves_act. intros w. apply I_emit. Qed.

Lemma renderList_preserves : preserves I renderList.
Proof.
  unfold renderList. preserve;
    try (apply preserves_act; intros wx; apply I_emit).
  apply updateCount_preserves.
Qed.

Lemma panToSelected_preserves : preserves I panToSelected.
Proof.
  unfold panToSelected. preserve; apply preserves_act; intros wx; apply I_emit.
Qed.

End EmitOnly.

Lemma selection_is_emit (i : Z) : emit_stable (@selection_is number i).
Proof. intros e w H. exact H. Qed.

(** The index that [selectIndex] leaves selected. *)
Lemma selectIndex_selectedIndex idx w :
  pools w <> [] ->
  selectedIndex (selectIndex idx w).2
  = Z.rem (idx + len (pools w)) (len (pools w)).
Proof.
  intros Hp. unfold selectIndex, reading.
  destruct (pools w) as [|p0 ps] eqn:E; [congruence|].
  rewrite len_cons_eqb, andThen_act.
  match goal with |- selectedIndex (?c ?w1).2 = ?i =>
    assert (Hc : preserves (selection_is i) c)
  end.
  { preserve.
    - apply preserves_act. intros wx Hx. exact Hx.
    - apply renderList_preserves, selection_is_emit.
    - apply panToSelected_preserves, selection_is_emit. }
  apply Hc. reflexivity.
Qed.

Lemma selectIndex_no_pools idx w :
  pools w = [] -> selectIndex idx w = (Normal, w).
Proof. intros Hp. unfold selectIndex, reading. now rewrite Hp. Qed.

(** From [-N] upwards the selection wraps into [[0, N)] with period
    [N]. *)
Lemma selectIndex_wraps idx w :
  pools w <> [] ->
  - len (pools w) <= idx ->
  0 <= selectedIndex (selectIndex idx w).2 < len (pools w)
  /\ selectedIndex (selectIndex (idx + len (pools w)) w).2
     = selectedIndex (selectIndex idx w).2.
Proof.
  intros Hp Hi. rewrite !selectIndex_selectedIndex by exact Hp.
  apply len_pos_iff in Hp.
  rewrite !Z.rem_mod_nonneg by lia.
  split; [apply Z.mod_pos_bound; lia|].
  rewrite <- (Z.add_mod_idemp_r (idx + len (pools w))) by lia.
  rewrite Z.mod_same, Z.add_0_r by lia. reflexivity.
Qed.

(** Below [-N] the selection is never positive: it is in range only
    when [idx] is a multiple of [N]. *)
Lemma selectIndex_below idx w :
  pools w <> [] ->
  idx < - len (pools w) ->
  - len (pools w) < selectedIndex (selectIndex idx w).2 <= 0.
Proof.
  intros Hp Hi. rewrite selectIndex_selectedIndex by exact Hp.
  apply len_pos_iff in Hp. apply Z.rem_bound_pos_neg; lia.
Qed.

(** *** Start-up *)

Section FirstSelected.

Variables (before : list (Effect number)) (p0 : Pool number) (ps : list (Pool number)).

Local Abbreviation settled := (first_selected before p0 ps).

Lemma settled_emit e w :
  shows_selection 0 p0 e -> settled w -> settled (emit e w).
Proof.
  intros He (Hp & Hs & new & Hn & Hall).
  split; [exact Hp|]. split; [exact Hs|].
  exists (new ++ [e]). split.
  - simpl. rewrite Hn, <- app_assoc. reflexivity.
  - apply Forall_app. split; [exact Hall|]. constructor; [exact He | constructor].
Qed.

(** Continue with the rest of a body from a world that is settled. *)
Ltac continue H :=
  match goal with
  | |- first_selected ?b ?p ?l (?c ?w).2 =>
      cut (preserves (first_selected b p l) c);
      [ let Hc := fresh in intros Hc; apply Hc; exact H | ]
  end.

Lemma settled_updateCount : preserves settled updateCount.
Proof.
  unfold updateCount. preserve. apply preserves_act.
  intros w. apply settled_emit. exact Logic.I.
Qed.

Lemma settled_renderList : preserves settled renderList.
Proof.
  unfold renderList. apply preserves_reading. intros w H.
  pose proof H as (Hp & Hs & _). rewrite Hp, Hs.
  rewrite len_cons_eqb. change (at_index (p0 :: ps) 0) with (Some p0).
  continue H. preserve; try apply settled_updateCount;
    apply preserves_act; intros wx; apply settled_emit;
    first [exact Logic.I | reflexivity].
Qed.

Lemma settled_panToSelected : preserves settled panToSelected.
Proof.
  unfold panToSelected. apply preserves_reading. intros w H.
  pose proof H as (Hp & Hs & _). rewrite Hp, Hs.
  rewrite len_cons_eqb. change (at_index (p0 :: ps) 0) with (Some p0).
  continue H. preserve;
    apply preserves_act; intros wx; apply settled_emit; reflexivity.
Qed.

Lemma settled_selectIndex : preserves settled (selectIndex 0).
Proof.
  unfold selectIndex. apply preserves_reading. intros w H.
  pose proof H as (Hp & Hs & _). rewrite Hp.
  rewrite len_cons_eqb.
  change (0 + len (p0 :: ps)) with (len (p0 :: ps)).
  rewrite Z.rem_same by (unfold len; simpl; lia).
  continue H. preserve_seq.
  - apply preserves_act. intros wx (Hpx & _ & Hx). split; [exact Hpx|]. split; [reflexivity | exact Hx].
  - apply preserves_reading. intros wx Hx.
    pose proof Hx as (_ & Hsx & _). rewrite Hsx.
    apply settled_emit; [reflexivity | exact Hx].
  - apply settled_renderList.
  - apply settled_panToSelected.
Qed.

Lemma settled_setupMap : preserves settled setupMap.
Proof.
  unfold setupMap. preserve; apply preserves_act; intros wx Hx.
  - apply settled_emit; [exact Logic.I | exact Hx].
  - exact Hx.
Qed.

Lemma settled_setView_list : preserves settled (setView false).
Proof.
  unfold setView. preserve; apply preserves_act; intros wx Hx;
    first [ exact Hx | apply settled_emit; [exact Logic.I | exact Hx] ].
Qed.

End FirstSelected.

(** C9. When the pools have loaded and the saved selection is negative
    or not below their number, [init] sets the selection to 0 first:
    it ends with index 0 selected, and every effect it has on the
    storage, the list row and the map is for index 0 and the first
    pool. *)
Theorem init_resets_out_of_range_selection w response p0 ps :
  loadPools Number response = inr (p0 :: ps) ->
  selectedIndex w < 0 \/ len (p0 :: ps) <= selectedIndex w ->
  selectedIndex (init Number (inr response) w).2 = 0
  /\ exists new,
       effects (init Number (inr response) w).2 = effects w ++ new
       /\ Forall (shows_selection 0 p0) new.
Proof.
  intros Hload Hout.
  cut (first_selected (effects w) p0 ps (init Number (inr response) w).2).
  { intros (_ & Hs & Hn). split; [exact Hs | exact Hn]. }
  unfold init. rewrite Hload, andThen_act.
  unfold reading at 1. change (pools (set_pools (p0 :: ps) w)) with (p0 :: ps).
  rewrite len_cons_eqb, andThen_reading.
  change (selectedIndex (set_pools (p0 :: ps) w)) with (selectedIndex w).
  change (pools (set_pools (p0 :: ps) w)) with (p0 :: ps).
  replace ((selectedIndex w <? 0) || (selectedIndex w >=? len (p0 :: ps))) with true
    by (symmetry; apply orb_true_iff; rewrite Z.ltb_lt, Z.geb_le; lia).
  rewrite andThen_act.
  match goal with |- first_selected ?b ?p ?l (?c ?w1).2 =>
    cut (preserves (first_selected b p l) c)
  end.
  { intros Hc. apply Hc. split; [reflexivity|]. split; [reflexivity|].
    exists []. split; [now rewrite app_nil_r | constructor]. }
  preserve_seq.
  - apply settled_setupMap.
  - apply preserves_reading. intros wx Hx.
    pose proof Hx as (_ & Hsx & _). rewrite Hsx.
    now apply settled_selectIndex.
  - apply settled_setView_list.
  - apply settled_updateCount.
  - apply preserves_act. intros wx Hx. apply settled_emit; [exact Logic.I | exact Hx].
Qed.

End Selection.

(** ** The loader *)

Section Loader.

Context {number json : Type}.
Variable Number : json -> number.

Lemma N_of_ascii_inj (a b : ascii) : N_of_ascii a = N_of_ascii b -> a = b.
Proof.
  intros H. rewrite <- (ascii_N_embedding a), <- (ascii_N_embedding b).
  now rewrite H.
Qed.

Lemma js_inj (s t : string) : js s = js t -> s = t.
Proof.
  unfold js. revert t.
  induction s as [|a s IH]; intros [|b t] H; simpl in H; try discriminate.
  - reflexivity.
  - injection H as Hab Hst. f_equal; [apply N_of_ascii_inj, Hab | apply IH, Hst].
Qed.

(** The decimal text determines the number. *)
Lemma decimal_inj (a b : N) : decimal a = decimal b -> a = b.
Proof.
  unfold decimal. intros H. apply js_inj in H.
  apply DecimalN.Unsigned.to_uint_inj.
  pose proof (NilEmpty.usu (N.to_uint a)) as Ha.
  rewrite H, NilEmpty.usu in Ha. congruence.
Qed.

(** C8. When the response is not ok, [loadPools] rejects with an error
    whose message spells the status code (so that different codes give
    different errors), and resolves with no pool list. *)
Theorem loadPools_rejects_with_status (response : Response json) :
  ok response = false ->
  loadPools Number response
    = inl {| message := js "Failed to load pools.json (status "
                          ++ decimal (status response) ++ js ")" |}
  /\ (forall loaded, loadPools Number response <> inr loaded)
  /\ (forall other : Response json,
        ok other = false ->
        loadPools Number other = loadPools Number response ->
        status other = status response).
Proof.
  intros Hok.
  assert (Hr : forall r : Response json, ok r = false ->
            loadPools Number r
            = inl {| message := js "Failed to load pools.json (status "
                                  ++ decimal (status r) ++ js ")" |}).
  { intros r H. unfold loadPools. now rewrite H. }
  split; [apply Hr, Hok|]. split.
  - intros loaded. rewrite (Hr _ Hok). discriminate.
  - intros other Hother Heq. rewrite (Hr _ Hok), (Hr _ Hother) in Heq.
    injection Heq as Heq.
    apply app_inv_tail in Heq.
    apply decimal_inj, Heq.
Qed.

End Loader.

(** ** The persisted reads *)

Section StorageReads.

Variables visitedKey selectionKey stampsPageKey : jsstring.
Variable parseVisited : jsstring -> option VisitedMap.
Variable parseIndex : jsstring -> option Z.

Lemma readKey_default {A} (parse : jsstring -> option A) (default : A) key ls :
  Storage.unusable parse key ls -> Storage.readKey parse default key ls = inr default.
Proof.
  unfold Storage.readKey. intros [Hnone | (raw & Hraw & Hbad)].
  - now rewrite Hnone.
  - now rewrite Hraw, Hbad.
Qed.

Lemma readKey_returns {A} (parse : jsstring -> option A) (default : A) key ls :
  exists value, Storage.readKey parse default key ls = inr value.
Proof.
  unfold Storage.readKey. destruct (ls !! key) as [raw|]; [|eauto].
  destruct (parse raw); eauto.
Qed.

(** C7. Each of the three persisted reads returns its safe default (the
    empty map, index 0, page 0) when its key is absent or holds invalid
    text, and in every case returns a value instead of throwing. *)
Theorem persisted_reads_default (ls : Storage.LocalStorage) :
  (Storage.unusable parseVisited visitedKey ls ->
     Storage.readVisited visitedKey parseVisited ls = inr ∅)
  /\ (Storage.unusable parseIndex selectionKey ls ->
        Storage.readSelection selectionKey parseIndex ls = inr 0)
  /\ (Storage.unusable parseIndex stampsPageKey ls ->
        Storage.readStampsPage stampsPageKey parseIndex ls = inr 0)
  /\ (exists v, Storage.readVisited visitedKey parseVisited ls = inr v)
  /\ (exists i, Storage.readSelection selectionKey parseIndex ls = inr i)
  /\ (exists p, Storage.readStampsPage stampsPageKey parseIndex ls = inr p).
Proof.
  unfold Storage.readVisited, Storage.readSelection, Storage.readStampsPage.
  repeat split; try apply readKey_default; apply readKey_returns.
Qed.

End StorageReads.

(** ** The claims at concrete inputs *)

(** C1 (the code at a failing input). With five pools, [selectIndex(-7)]
    leaves -2 selected, which is no index of the list, and the redraw
    that follows throws; [selectIndex(-7 + 5)] selects 3. *)
Theorem selectIndex_minus_seven_of_five :
  selectedIndex (selectIndex (-7) (Sample.session Sample.fivePools 0 0)).2 = -2
  /\ (selectIndex (-7) (Sample.session Sample.fivePools 0 0)).1 = Throw
  /\ selectedIndex (selectIndex (-7 + 5) (Sample.session Sample.fivePools 0 0)).2 = 3.
Proof. vm_compute. repeat split. Qed.

(** C3 (counterexample). The input [" 2025-06-01"] is not blank, and the
    date stored for it is not the input as given. *)
Lemma setStampDate_does_not_store_input_as_given :
  isBlank (js " 2025-06-01") = false
  /\ visited (setStampDate (js "X") (js " 2025-06-01")
                (Sample.session Sample.fivePools 0 0)).2 !! js "X"
     <> Some {| done := true; date := Some (js " 2025-06-01") |}.
Proof.
  split; [reflexivity|].
  rewrite setStampDate_visited by reflexivity.
  rewrite lookup_insert_eq. discriminate.
Qed.

(** C4 (counterexample). With no pool, [totalPages] (which is 1) is not
    the ceiling of 0/3, and the last page does not hold between 1 and 3
    pools. *)
Lemma stamps_pages_without_pools :
  totalPages (@nil (Pool Z)) <> ceil_quotient (len (@nil (Pool Z))) 3
  /\ ~ (1 <= len (pagePools (@nil (Pool Z)) (totalPages (@nil (Pool Z)) - 1)) <= 3).
Proof.
  split.
  - change (totalPages (@nil (Pool Z))) with 1.
    change (ceil_quotient (len (@nil (Pool Z))) 3) with 0. discriminate.
  - change (len (pagePools (@nil (Pool Z)) (totalPages (@nil (Pool Z)) - 1))) with 0.
    lia.
Qed.

(** C5 (witness). Seven pools, page 5 requested: page 2 is kept and
    written. *)
Lemma renderStamps_clamps_and_persists_witness :
  passportGrid (dom (Sample.session Sample.sevenPools 0 5)) = true
  /\ currentStampsPage (renderStamps None (Sample.session Sample.sevenPools 0 5)).2
     = 2.
Proof.
  split; [reflexivity|].
  rewrite (proj1 (renderStamps_clamps_and_persists None
                    (Sample.session Sample.sevenPools 0 5) eq_refl)).
  reflexivity.
Defined.

(** C6 (witness). The map after one click on a stamp chip in a first
    run. *)
Lemma produced_records_dated_only_if_done_witness :
  Produced Sample.asNumber
    (handle (ClickStampChip Sample.noon20250601 (js "Bronte Baths"))
       (Sample.firstRun 0)).2
  /\ map_Forall (fun _ r => dated_only_if_done r)
       (visited (handle (ClickStampChip Sample.noon20250601 (js "Bronte Baths"))
                   (Sample.firstRun 0)).2).
Proof.
  assert (H : Produced Sample.asNumber
                (handle (ClickStampChip Sample.noon20250601 (js "Bronte Baths"))
                   (Sample.firstRun 0)).2).
  { apply produced_handle. apply produced_first_run. }
  split; [exact H|].
  exact (produced_records_dated_only_if_done Sample.asNumber _ H).
Defined.

(** C7 (witness). A selection entry that is not a number reads as 0. *)
Lemma persisted_reads_default_witness :
  Storage.unusable Storage.parseDecimal (js "selected") Sample.brokenSelection
  /\ Storage.readSelection (js "selected") Storage.parseDecimal Sample.brokenSelection
     = inr 0.
Proof.
  assert (H : Storage.unusable Storage.parseDecimal (js "selected")
                Sample.brokenSelection).
  { right. exists (js "abc"). split; reflexivity. }
  split; [exact H|].
  exact (proj1 (proj2 (persisted_reads_default (js "visited") (js "selected")
                         (js "stampsPage") Storage.parseEmptyObject
                         Storage.parseDecimal Sample.brokenSelection)) H).
Defined.

(** C8 (witness). A 404 response. *)
Lemma loadPools_rejects_with_status_witness :
  ok Sample.notFound = false
  /\ loadPools Sample.asNumber Sample.notFound
     = inl {| message := js "Failed to load pools.json (status "
                           ++ decimal 404 ++ js ")" |}.
Proof.
  split; [reflexivity|].
  exact (proj1 (loadPools_rejects_with_status Sample.asNumber Sample.notFound eq_refl)).
Defined.

(** C9 (witness). Five pools load and the saved selection is 9. *)
Lemma init_resets_out_of_range_selection_witness :
  (selectedIndex (Sample.firstRun 9) < 0
   \/ len Sample.fivePools <= selectedIndex (Sample.firstRun 9))
  /\ selectedIndex (init Sample.asNumber (inr Sample.okResponse) (Sample.firstRun 9)).2 = 0.
Proof.
  assert (H : selectedIndex (Sample.firstRun 9) < 0
              \/ len Sample.fivePools <= selectedIndex (Sample.firstRun 9)).
  { right. vm_compute. discriminate. }
  split; [exact H|].
  exact (proj1 (init_resets_out_of_range_selection Sample.asNumber
                  (Sample.firstRun 9) Sample.okResponse
                  (Sample.pool "Bronte Baths" (-33905200) 151268500)
                  (tl Sample.fivePools) eq_refl H)).
Defined.


(** ** Scenarios *)

Example iso_epoch : JsDate.toISOString 0 = js "1970-01-01T00:00:00.000Z".
Proof. reflexivity. Qed.

Example iso_2025 :
  JsDate.toISOString 1748779323456 = js "2025-06-01T12:02:03.456Z".
Proof. reflexivity. Qed.

Example iso_leap_day : today 951782400000 = js "2000-02-29".
Proof. reflexivity. Qed.

Example iso_before_epoch :
  JsDate.toISOString (-1) = js "1969-12-31T23:59:59.999Z".
Proof. reflexivity. Qed.

Example trim_both_ends : trim (js "  ab c ") = js "ab c".
Proof. reflexivity. Qed.

(** Five pools, index 0 selected, five steps of +1: 1, 2, 3, 4, 0. *)
Example five_steps_wrap :
  let step w := (moveSelection 1 w).2 in
  let w1 := step (Sample.session Sample.fivePools 0 0) in
  let w2 := step w1 in let w3 := step w2 in
  let w4 := step w3 in let w5 := step w4 in
  map selectedIndex [w1; w2; w3; w4; w5] = [1; 2; 3; 4; 0].
Proof. vm_compute. reflexivity. Qed.

(** One step back from the first pool selects the last. *)
Example step_back_from_first :
  selectedIndex (moveSelection (-1) (Sample.session Sample.fivePools 0 0)).2 = 4.
Proof. vm_compute. reflexivity. Qed.

(** Stamping "Bronte Baths" on 2025-06-01 and again. *)
Example bronte_stamped_and_cleared :
  let w1 := (toggleStamp Sample.noon20250601 (js "Bronte Baths") true
               (Sample.session Sample.fivePools 0 0)).2 in
  let w2 := (toggleStamp Sample.noon20250601 (js "Bronte Baths") true w1).2 in
  visited w1 !! js "Bronte Baths"
    = Some {| done := true; date := Some (js "2025-06-01") |}
  /\ visited w2 !! js "Bronte Baths" = Some {| done := false; date := None |}.
Proof. vm_compute. split; reflexivity. Qed.

(** Seven pools, page 5 requested: what [renderStamps] does. *)
Example seven_pools_page_five :
  renderStamps None (Sample.session Sample.sevenPools 0 5)
  = (Normal,
     {| pools := Sample.sevenPools; visited := ∅; selectedIndex := 0;
        currentStampsPage := 2; onStampsView := false; mapReady := true;
        dom := Sample.allPresent;
        effects :=
          [ WriteStampsPage 2; GridCleared;
            GridCard {| card_pool := Sample.pool "Greenwich Baths" (-33841700) 151183300;
                        card_pop := false; card_stamped := false;
                        card_date := None |};
            PageLabel 3 3; PrevDisabled false; NextDisabled true ] |}).
Proof. vm_compute. reflexivity. Qed.

(** [setStampDate("X", "")] changes nothing. *)
Example empty_date_is_ignored :
  setStampDate (js "X") (js "") (Sample.session Sample.fivePools 0 0)
  = (Normal, Sample.session Sample.fivePools 0 0).
Proof. reflexivity. Qed.

(** * Further properties of [app.js] and [data.js] *)

(** ** What the commands keep *)

Section Stable.

Context {number : Type}.
Variable I : World number -> Prop.
Hypothesis I_emit : emit_stable I.

Lemma act_emit_preserves (e : Effect number) : preserves I (act (emit e)).
Proof. apply preserves_act. intros w. apply I_emit. Qed.

Lemma renderStamps_stable popName :
  (forall x w, I w -> I (set_currentStampsPage x w)) ->
  preserves I (renderStamps popName).
Proof.
  intros Hpage. unfold renderStamps. preserve;
    try (apply preserves_act; intros wx Hx;
         first [ apply Hpage; exact Hx
               | apply I_emit; exact Hx
               | apply preserves_emits; [exact I_emit | exact Hx] ]).
Qed.

Lemma changeStampsPage_stable delta :
  (forall x w, I w -> I (set_currentStampsPage x w)) ->
  preserves I (changeStampsPage delta).
Proof.
  intros Hpage. unfold changeStampsPage. preserve.
  - apply preserves_act. intros wx Hx. apply Hpage, Hx.
  - apply renderStamps_stable, Hpage.
Qed.

Lemma selectIndex_stable idx :
  (forall x w, I w -> I (set_selectedIndex x w)) ->
  preserves I (selectIndex idx).
Proof.
  intros Hsel. unfold selectIndex. preserve.
  - apply preserves_act. intros wx Hx. apply Hsel, Hx.
  - apply act_emit_preserves.
  - apply renderList_preserves, I_emit.
  - apply panToSelected_preserves, I_emit.
Qed.

Lemma moveSelection_stable step :
  (forall x w, I w -> I (set_selectedIndex x w)) ->
  preserves I (moveSelection step).
Proof.
  intros Hsel. unfold moveSelection. preserve. apply selectIndex_stable, Hsel.
Qed.

Lemma setupMap_stable :
  (forall x w, I w -> I (set_mapReady x w)) -> preserves I setupMap.
Proof.
  intros Hmap. unfold setupMap. preserve.
  - apply act_emit_preserves.
  - apply preserves_act. intros wx Hx. apply Hmap, Hx.
Qed.

Lemma setView_stable showStamps :
  (forall x w, I w -> I (set_onStampsView x w)) ->
  (forall x w, I w -> I (set_currentStampsPage x w)) ->
  preserves I (setView showStamps).
Proof.
  intros Hview Hpage. unfold setView. preserve;
    first [ apply act_emit_preserves
          | apply renderStamps_stable, Hpage
          | apply preserves_act; intros wx Hx; apply Hview, Hx ].
Qed.

Lemma openInNativeMaps_stable apple : preserves I (openInNativeMaps apple).
Proof. unfold openInNativeMaps. preserve. apply act_emit_preserves. Qed.

Lemma toggleFullMap_stable : preserves I toggleFullMap.
Proof. unfold toggleFullMap. preserve; apply act_emit_preserves. Qed.

Lemma resizeTimer_stable pan : preserves I (resizeTimer pan).
Proof.
  unfold resizeTimer. preserve;
    first [ apply act_emit_preserves | apply panToSelected_preserves, I_emit ].
Qed.

End Stable.

(** ** Moving the selection *)

Section Moving.

Context {number : Type}.
Implicit Types (w : World number).

Lemma pools_emit_stable (ps : list (Pool number)) :
  emit_stable (fun w => pools w = ps).
Proof. intros e w H. exact H. Qed.

Lemma moveSelection_pools step w : pools (moveSelection step w).2 = pools w.
Proof.
  apply (moveSelection_stable (fun w' => pools w' = pools w)); try reflexivity.
  - apply pools_emit_stable.
  - intros x w' H. exact H.
Qed.

Lemma moveSelection_selectedIndex step w :
  pools w <> [] ->
  selectedIndex (moveSelection step w).2
  = Z.rem (selectedIndex w + step + len (pools w)) (len (pools w)).
Proof. intros Hp. unfold moveSelection, reading. now apply selectIndex_selectedIndex. Qed.

Lemma selection_persisted_emit (before : list (Effect number)) (i : Z) :
  emit_stable (selection_persisted before i).
Proof.
  intros e w [Hs [rest Hr]]. split; [exact Hs|].
  exists (rest ++ [e]). simpl. rewrite Hr, <- app_assoc. reflexivity.
Qed.

Lemma moveSelection_mod step w :
  pools w <> [] ->
  - len (pools w) <= selectedIndex w + step ->
  selectedIndex (moveSelection step w).2
    = (selectedIndex w + step) mod len (pools w)
  /\ 0 <= selectedIndex (moveSelection step w).2 < len (pools w).
Proof.
  intros Hp Hs. rewrite moveSelection_selectedIndex by exact Hp.
  apply len_pos_iff in Hp.
  rewrite Z.rem_mod_nonneg by lia.
  rewrite <- (Z.add_mod_idemp_r (selectedIndex w + step)) by lia.
  rewrite Z.mod_same, Z.add_0_r by lia.
  split; [reflexivity | apply Z.mod_pos_bound; lia].
Qed.

(** X1. With pools loaded, [moveSelection(step)] from a selection [s]
    with [s + step >= -N] selects [(s + step) mod N], an index of the
    list: one step forward from the last pool selects the first, one step
    back from the first selects the last. *)
Theorem moveSelection_wraps step w :
  pools w <> [] ->
  - len (pools w) <= selectedIndex w + step ->
  selectedIndex (moveSelection step w).2
    = (selectedIndex w + step) mod len (pools w)
  /\ 0 <= selectedIndex (moveSelection step w).2 < len (pools w).
Proof. apply moveSelection_mod. Qed.

(** X2. From a selection in range, a step forward and a step back (or a
    step back and a step forward) select the pool that was selected. *)
Theorem moveSelection_there_and_back w :
  0 <= selectedIndex w < len (pools w) ->
  selectedIndex (moveSelection (-1) (moveSelection 1 w).2).2 = selectedIndex w
  /\ selectedIndex (moveSelection 1 (moveSelection (-1) w).2).2 = selectedIndex w.
Proof.
  intros Hs.
  assert (Hp : pools w <> []) by (apply len_pos_iff; lia).
  assert (Hround : forall a b : Z, a + b = 0 -> - len (pools w) <= a ->
            - len (pools w) <= b ->
            selectedIndex (moveSelection b (moveSelection a w).2).2 = selectedIndex w).
  { intros a b Hab Ha Hb.
    destruct (moveSelection_mod a w Hp ltac:(lia)) as [E1 R1].
    assert (Hp1 : pools (moveSelection a w).2 <> [])
      by (rewrite moveSelection_pools; exact Hp).
    destruct (moveSelection_mod b (moveSelection a w).2 Hp1) as [E2 _].
    { rewrite moveSelection_pools. lia. }
    rewrite E2, moveSelection_pools, E1.
    rewrite Z.add_mod_idemp_l by lia.
    replace (selectedIndex w + a + b) with (selectedIndex w) by lia.
    apply Z.mod_small. exact Hs. }
  split; apply Hround; lia.
Qed.

(** X3. From a selection [s] in range, [k] steps forward select
    [(s + k) mod N]; as many steps as there are pools come back to the
    pool that was selected. *)
Theorem moveSelection_forward_steps w (k : nat) :
  0 <= selectedIndex w < len (pools w) ->
  selectedIndex (Nat.iter k (fun w' => (moveSelection 1 w').2) w)
    = (selectedIndex w + Z.of_nat k) mod len (pools w)
  /\ selectedIndex (Nat.iter (length (pools w)) (fun w' => (moveSelection 1 w').2) w)
     = selectedIndex w.
Proof.
  intros Hs.
  assert (Hp : pools w <> []) by (apply len_pos_iff; lia).
  assert (Hk : forall n : nat,
            pools (Nat.iter n (fun w' => (moveSelection 1 w').2) w) = pools w
            /\ selectedIndex (Nat.iter n (fun w' => (moveSelection 1 w').2) w)
               = (selectedIndex w + Z.of_nat n) mod len (pools w)).
  { induction n as [|n [IHp IHs]].
    - simpl. split; [reflexivity|]. rewrite Z.add_0_r, Z.mod_small; [reflexivity | exact Hs].
    - simpl Nat.iter. split; [now rewrite moveSelection_pools|].
      destruct (moveSelection_mod 1
                  (Nat.iter n (fun w' => (moveSelection 1 w').2) w)) as [E _].
      + rewrite IHp. exact Hp.
      + rewrite IHp, IHs.
        pose proof (Z.mod_pos_bound (selectedIndex w + Z.of_nat n) (len (pools w))).
        lia.
      + rewrite E, IHp, IHs. rewrite Z.add_mod_idemp_l by lia.
        f_equal. lia. }
  split; [apply Hk|].
  rewrite (proj2 (Hk (length (pools w)))). fold (len (pools w)).
  rewrite <- (Z.add_mod_idemp_r (selectedIndex w)) by lia.
  rewrite Z.mod_same, Z.add_0_r by lia. apply Z.mod_small, Hs.
Qed.

(** X4. With pools loaded, [selectIndex] hands to [writeSelection] the
    index it leaves selected, before it redraws anything: the stored
    selection and the selection in memory agree. *)
Theorem selectIndex_persists_selection idx w :
  pools w <> [] ->
  exists rest,
    effects (selectIndex idx w).2
    = effects w ++ WriteSelection (selectedIndex (selectIndex idx w).2) :: rest.
Proof.
  intros Hp.
  cut (selection_persisted (effects w)
         (Z.rem (idx + len (pools w)) (len (pools w))) (selectIndex idx w).2).
  { intros [Hs Hr]. rewrite Hs. exact Hr. }
  unfold selectIndex, reading.
  destruct (pools w) as [|p0 ps] eqn:E; [congruence|].
  rewrite len_cons_eqb, andThen_act.
  rewrite (andThen_reading_act (fun w0 => emit (WriteSelection (selectedIndex w0)))).
  match goal with |- selection_persisted ?b ?i (?c ?w2).2 =>
    cut (preserves (selection_persisted b i) c)
  end.
  { intros Hc. apply Hc. split; [reflexivity|]. exists []. reflexivity. }
  preserve_seq.
  - apply renderList_preserves, selection_persisted_emit.
  - apply panToSelected_preserves, selection_persisted_emit.
Qed.

End Moving.

(** ** Stamping *)

Section Stamping.

Context {number : Type}.
Implicit Types (w : World number) (nm d : jsstring).

Lemma visited_persisted_emit (before : list (Effect number)) (v : VisitedMap) :
  emit_stable (visited_persisted before v).
Proof.
  intros e w [Hv [rest Hr]]. split; [exact Hv|].
  exists (rest ++ [e]). simpl. rewrite Hr, <- app_assoc. reflexivity.
Qed.

(** After the map was updated to [v]: persist, then redraw. *)
Lemma persist_then_redraw (v : VisitedMap) (redraw : Cmd number) w :
  visited w = v ->
  preserves (visited_persisted (effects w) v) redraw ->
  visited_persisted (effects w) v
    (andThen (reading (fun w0 => act (emit (WriteVisited (visited w0))))) redraw w).2.
Proof.
  intros Hv Hr. rewrite andThen_reading_act. apply Hr.
  split; [exact Hv|]. exists []. simpl. now rewrite Hv.
Qed.

Lemma redraw_keeps_persisted (before : list (Effect number)) (v : VisitedMap)
    popName :
  preserves (visited_persisted before v) (andThen renderList (renderStamps popName)).
Proof.
  preserve_seq.
  - apply renderList_preserves, visited_persisted_emit.
  - apply renderStamps_stable; [apply visited_persisted_emit|].
    intros x w H. exact H.
Qed.

Lemma toggleStamp_persisted now nm animate w :
  visited_persisted (effects w) (<[nm := toggled now (visited w !! nm)]> (visited w))
    (toggleStamp now nm animate w).2.
Proof.
  unfold toggleStamp. rewrite andThen_act.
  match goal with |- visited_persisted _ _ (andThen _ ?r ?w1).2 =>
    replace (effects w) with (effects w1)
      by (destruct (stampedOf (visited w !! nm)); reflexivity)
  end.
  apply persist_then_redraw.
  - unfold toggled. destruct (stampedOf (visited w !! nm)); reflexivity.
  - apply redraw_keeps_persisted.
Qed.

Lemma setStampDate_persisted nm d w :
  isBlank d = false ->
  visited_persisted (effects w)
    (<[nm := {| done := true; date := Some (trim d) |}]> (visited w))
    (setStampDate nm d w).2.
Proof.
  intros Hb. unfold setStampDate.
  destruct (falsy d) eqn:Hd.
  { apply falsy_blank in Hd. congruence. }
  rewrite trim_blank, Hb. rewrite andThen_act.
  match goal with |- visited_persisted _ _ (andThen _ ?r ?w1).2 =>
    change (effects w) with (effects w1)
  end.
  apply persist_then_redraw; [reflexivity | apply redraw_keeps_persisted].
Qed.

Lemma resetStamps_persisted w :
  visited_persisted (effects w) ∅ (resetStamps true w).2.
Proof.
  unfold resetStamps. change (negb true) with false. cbv iota.
  rewrite andThen_act.
  match goal with |- visited_persisted _ _ (andThen _ ?r ?w1).2 =>
    change (effects w) with (effects w1)
  end.
  apply persist_then_redraw; [reflexivity|].
  preserve_seq.
  - apply renderList_preserves, visited_persisted_emit.
  - apply renderStamps_stable; [apply visited_persisted_emit|].
    intros x w' H. exact H.
  - apply updateCount_preserves, visited_persisted_emit.
Qed.

(** X5. Each of the three mutators hands to [writeVisited] the map it
    leaves in memory, as its first effect: after [toggleStamp], after
    [setStampDate] with an input that is not blank, and after a confirmed
    reset, the stored map and the map in memory agree. A blank input and
    a declined reset have no effect at all. *)
Theorem mutators_persist_the_map_they_hold now nm animate d w :
  (exists rest,
     effects (toggleStamp now nm animate w).2
     = effects w ++ WriteVisited (visited (toggleStamp now nm animate w).2) :: rest)
  /\ (if isBlank d then effects (setStampDate nm d w).2 = effects w
      else exists rest,
             effects (setStampDate nm d w).2
             = effects w ++ WriteVisited (visited (setStampDate nm d w).2) :: rest)
  /\ (exists rest,
        effects (resetStamps true w).2
        = effects w ++ WriteVisited (visited (resetStamps true w).2) :: rest)
  /\ effects (resetStamps false w).2 = effects w.
Proof.
  split; [|split; [|split]].
  - destruct (toggleStamp_persisted now nm animate w) as [Hv Hr].
    rewrite Hv. exact Hr.
  - destruct (isBlank d) eqn:Hb.
    + now rewrite (setStampDate_blank nm d w Hb).
    + destruct (setStampDate_persisted nm d w Hb) as [Hv Hr].
      rewrite Hv. exact Hr.
  - destruct (resetStamps_persisted w) as [Hv Hr]. rewrite Hv. exact Hr.
  - reflexivity.
Qed.

(** X6. A confirmed reset leaves no pool stamped, whatever was stamped
    before, and keeps the selection and the pools; a declined reset
    leaves the world as it was. *)
Theorem reset_clears_every_stamp w nm :
  stampedOf (visited (resetStamps true w).2 !! nm) = false
  /\ stampDateOf (visited (resetStamps true w).2 !! nm) = None
  /\ selectedIndex (resetStamps true w).2 = selectedIndex w
  /\ pools (resetStamps true w).2 = pools w
  /\ resetStamps false w = (Normal, w).
Proof.
  rewrite (resetStamps_visited true w), lookup_empty.
  repeat split.
  - unfold resetStamps. change (negb true) with false. cbv iota.
    rewrite andThen_act.
    match goal with |- selectedIndex (?c ?w1).2 = _ =>
      cut (preserves (selection_is (selectedIndex w)) c);
      [intros Hc; exact (Hc w1 eq_refl)|]
    end.
    preserve_seq.
    + apply preserves_reading_any; intros w0. apply act_emit_preserves, selection_is_emit.
    + apply renderList_preserves, selection_is_emit.
    + apply renderStamps_stable; [apply selection_is_emit|]. intros x w' H. exact H.
    + apply updateCount_preserves, selection_is_emit.
  - unfold resetStamps. change (negb true) with false. cbv iota.
    rewrite andThen_act.
    match goal with |- pools (?c ?w1).2 = _ =>
      cut (preserves (fun w' => pools w' = pools w) c);
      [intros Hc; exact (Hc w1 eq_refl)|]
    end.
    preserve_seq.
    + apply preserves_reading_any; intros w0. apply act_emit_preserves, pools_emit_stable.
    + apply renderList_preserves, pools_emit_stable.
    + apply renderStamps_stable; [apply pools_emit_stable|]. intros x w' H. exact H.
    + apply updateCount_preserves, pools_emit_stable.
Qed.

(** X7. How the two stamp operations compose on one pool: a date set by
    hand always wins over what was there (stamped or not, by a toggle or
    by an earlier date), and a toggle after a date was set clears the
    stamp and its date. *)
Theorem setStampDate_and_toggleStamp_compose now nm animate d1 d2 w :
  isBlank d1 = false ->
  isBlank d2 = false ->
  visited (setStampDate nm d1 (toggleStamp now nm animate w).2).2 !! nm
    = Some {| done := true; date := Some (trim d1) |}
  /\ visited (setStampDate nm d2 (setStampDate nm d1 w).2).2 !! nm
     = Some {| done := true; date := Some (trim d2) |}
  /\ visited (toggleStamp now nm animate (setStampDate nm d1 w).2).2 !! nm
     = Some {| done := false; date := None |}.
Proof.
  intros H1 H2. repeat split.
  - rewrite (setStampDate_visited _ d1) by exact H1. apply lookup_insert_eq.
  - rewrite (setStampDate_visited _ d2) by exact H2. apply lookup_insert_eq.
  - rewrite toggleStamp_visited, lookup_insert_eq.
    rewrite (setStampDate_visited _ d1) by exact H1.
    now rewrite lookup_insert_eq.
Qed.

End Stamping.

(** ** Dates entered by hand *)

Section EnteredDates.

Context {number : Type}.
Implicit Types (w : World number) (s t nm d : jsstring).

Lemma trimStart_head s (c : N) :
  head (trimStart s) = Some c -> isWhiteSpace c = false.
Proof.
  induction s as [|x s IH]; simpl; [discriminate|].
  destruct (isWhiteSpace x) eqn:E; [exact IH|].
  simpl. intros [= <-]. exact E.
Qed.

Lemma trimStart_snoc s (c : N) :
  isWhiteSpace c = false -> exists kept, trimStart (s ++ [c]) = kept ++ [c].
Proof.
  intros Hc. induction s as [|x s [kept IH]]; simpl.
  - rewrite Hc. exists []. reflexivity.
  - destruct (isWhiteSpace x).
    + exists kept. exact IH.
    + exists (x :: s). reflexivity.
Qed.

Lemma trimStart_fixed s :
  (forall c, head s = Some c -> isWhiteSpace c = false) -> trimStart s = s.
Proof.
  destruct s as [|x s]; [reflexivity|]. intros H. simpl.
  now rewrite (H x eq_refl).
Qed.

Lemma head_rev_last s : head (rev s) = last s.
Proof.
  induction s as [|x s IH]; [reflexivity|]. simpl rev.
  destruct s as [|y s]; [reflexivity|].
  change (last (x :: y :: s)) with (last (y :: s)). rewrite <- IH.
  simpl. destruct (rev s ++ [y]) eqn:E; [|reflexivity].
  destruct (rev s); discriminate.
Qed.

Lemma last_rev_head s : last (rev s) = head s.
Proof. rewrite <- head_rev_last, rev_involutive. reflexivity. Qed.

(** What [trim] returns neither begins nor ends with white space. *)
Lemma trim_ends s (c : N) :
  head (trim s) = Some c \/ last (trim s) = Some c -> isWhiteSpace c = false.
Proof.
  unfold trim, trimEnd. intros [H|H].
  - destruct (trimStart s) as [|x rest] eqn:E; [discriminate|].
    assert (Hx : isWhiteSpace x = false) by (apply (trimStart_head s); now rewrite E).
    simpl rev in H. destruct (trimStart_snoc (rev rest) x Hx) as [kept Hk].
    rewrite Hk, rev_app_distr in H. simpl in H. congruence.
  - rewrite last_rev_head in H. now apply trimStart_head in H.
Qed.

(** Trimming what was trimmed changes nothing. *)
Lemma trim_idempotent s : trim (trim s) = trim s.
Proof.
  assert (Hfix : forall u, (forall c, head u = Some c \/ last u = Some c ->
                              isWhiteSpace c = false) -> trim u = u).
  { intros u Hu. unfold trim, trimEnd.
    rewrite (trimStart_fixed u) by (intros c Hc; apply Hu; now left).
    rewrite trimStart_fixed, rev_involutive; [reflexivity|].
    intros c Hc. rewrite head_rev_last in Hc. apply Hu. now right. }
  apply Hfix. apply trim_ends.
Qed.

(** X8. The date that [setStampDate] stores for an input that is not
    blank is never empty, neither begins nor ends with white space, and
    trimming it again gives it back. *)
Theorem setStampDate_stores_a_trimmed_date nm d w :
  isBlank d = false ->
  exists t,
    visited (setStampDate nm d w).2 !! nm = Some {| done := true; date := Some t |}
    /\ t <> []
    /\ (forall c, head t = Some c -> isWhiteSpace c = false)
    /\ (forall c, last t = Some c -> isWhiteSpace c = false)
    /\ trim t = t.
Proof.
  intros Hb. exists (trim d).
  rewrite (setStampDate_visited nm d w Hb), lookup_insert_eq.
  split; [reflexivity|]. split; [|split; [|split]].
  - intros E. pose proof (trim_blank d) as Ht. rewrite E, Hb in Ht. discriminate.
  - intros c Hc. apply (trim_ends d). now left.
  - intros c Hc. apply (trim_ends d). now right.
  - apply trim_idempotent.
Qed.

(** The pattern of the date editor matches one text only. *)
Lemma datePatternTest_literal s :
  datePatternTest s = true <-> s = js "\dddd-\dd-\dd".
Proof.
  split.
  - unfold datePatternTest, datePattern. simpl.
    repeat (destruct s as [|? s]; [discriminate|];
            match goal with
            | |- context [(?x =? ?c)%N] =>
                destruct (N.eqb_spec x c); [subst|discriminate]
            end).
    destruct s; [reflexivity | discriminate].
  - intros ->. reflexivity.
Qed.

(** X9. The date editor of a card calls [setStampDate] only when the
    card is stamped and the trimmed answer is, letter for letter, a
    backslash and four d, a hyphen, a backslash and two d, a hyphen, a
    backslash and two d; in every other case it leaves the world as it
    was. An answer that begins with a digit, such as 2025-12-05, is
    refused with the alert. *)
Theorem onDateClick_passes_one_text_only (c : Card number) answer w :
  ((onDateClick c answer w).1 = Passed <->
     card_stamped c = true
     /\ exists next, answer = Some next /\ trim next = js "\dddd-\dd-\dd")
  /\ ((onDateClick c answer w).1 <> Passed ->
        (onDateClick c answer w).2 = (Normal, w))
  /\ (forall next digit rest,
        card_stamped c = true ->
        answer = Some next ->
        trim next = digit :: rest ->
        (48 <= digit <= 57)%N ->
        onDateClick c answer w = (Refused, (Normal, w))).
Proof.
  unfold onDateClick. split; [|split].
  - destruct (card_stamped c); simpl.
    2:{ split; [discriminate | intros [? _]; discriminate]. }
    destruct answer as [next|].
    2:{ split; [discriminate | intros [_ (? & ? & _)]; discriminate]. }
    destruct (falsy next) eqn:Hf.
    { split; [discriminate|]. intros [_ (n' & [= <-] & Ht)].
      destruct next; [discriminate Ht | discriminate Hf]. }
    destruct (datePatternTest (trim next)) eqn:Hp; simpl.
    + split; [|reflexivity]. intros _. split; [reflexivity|].
      exists next. split; [reflexivity|]. now apply datePatternTest_literal.
    + split; [discriminate|]. intros [_ (n' & [= <-] & Ht)].
      apply datePatternTest_literal in Ht. congruence.
  - destruct (card_stamped c); simpl; [|reflexivity].
    destruct answer as [next|]; [|reflexivity].
    destruct (falsy next); [reflexivity|].
    destruct (datePatternTest (trim next)); simpl; [congruence | reflexivity].
  - intros next digit rest -> -> Ht Hd. simpl.
    destruct (falsy next) eqn:Hf.
    { destruct next; [discriminate Ht | discriminate Hf]. }
    destruct (datePatternTest (trim next)) eqn:Hp; [|reflexivity].
    apply datePatternTest_literal in Hp. rewrite Ht in Hp.
    change (js "\dddd-\dd-\dd") with (92%N :: js "dddd-\dd-\dd") in Hp.
    injection Hp as Hp _. lia.
Qed.

End EnteredDates.

(** ** The pages of the passport grid *)

Section Pages.

Context {number : Type}.
Implicit Types (w : World number) (ps : list (Pool number)).

(** A page from a page number that is not negative: three pools from
    [3 * page] on. *)
Lemma pagePools_take_drop ps (k : nat) :
  pagePools ps (Z.of_nat k) = take 3 (drop (3 * k) ps).
Proof.
  unfold pagePools, stampsPerPage, slice, len.
  destruct (Z.ltb_spec (Z.of_nat k * 3) 0); [lia|].
  destruct (Z.ltb_spec (Z.of_nat k * 3 + 3) 0); [lia|].
  destruct (Nat.le_gt_cases (length ps) (3 * k)) as [Hge|Hlt].
  - rewrite (drop_ge ps (3 * k)) by exact Hge.
    rewrite drop_ge by lia. now rewrite !take_nil.
  - replace (Z.to_nat (Z.min (Z.of_nat k * 3) (Z.of_nat (length ps)))) with (3 * k)%nat by lia.
    destruct (Nat.le_gt_cases (3 * k + 3) (length ps)) as [Hfull|Hpart].
    + f_equal. lia.
    + rewrite !take_ge; [reflexivity | |]; rewrite length_drop; lia.
Qed.

Lemma pagePools_subset ps (page : Z) (p : Pool number) :
  p ∈ pagePools ps page -> p ∈ ps.
Proof.
  unfold pagePools, slice. intros Hp.
  apply list_elem_of_lookup in Hp as [i Hi].
  apply lookup_take_Some in Hi as [Hi _]. rewrite lookup_drop in Hi.
  eapply list_elem_of_lookup_2, Hi.
Qed.

Lemma changeStampsPage_pools delta w : pools (changeStampsPage delta w).2 = pools w.
Proof.
  apply (changeStampsPage_stable (fun w' => pools w' = pools w)); try reflexivity.
  - apply pools_emit_stable.
  - intros x w' H. exact H.
Qed.

(** X10. With the grid in the document, [changeStampsPage(delta)] moves
    to the page [current + delta] clamped into [0, totalPages - 1]: from
    a page in range, next on the last page and previous on the first page
    stay where they are. Without the grid element the page number is
    moved and not clamped. *)
Theorem changeStampsPage_saturates delta w :
  if passportGrid (dom w) then
    currentStampsPage (changeStampsPage delta w).2
      = clamp 0 (totalPages (pools w) - 1) (currentStampsPage w + delta)
    /\ 0 <= currentStampsPage (changeStampsPage delta w).2 <= totalPages (pools w) - 1
  else
    changeStampsPage delta w
      = (Normal, set_currentStampsPage (currentStampsPage w + delta) w).
Proof.
  unfold changeStampsPage. rewrite andThen_act.
  destruct (passportGrid (dom w)) eqn:Hg.
  - destruct (renderStamps_page None
                (set_currentStampsPage (currentStampsPage w + delta) w) Hg) as [Hp _].
    rewrite Hp. simpl.
    pose proof (totalPages_pos (pools w)) as Ht.
    rewrite (clampPage_clamp _ _ Ht). split; [reflexivity | unfold clamp; lia].
  - apply renderStamps_no_grid. exact Hg.
Qed.

(** X11. The card at place [j] of page [k] is the pool at index
    [3 k + j] of the list, for [j] = 0, 1, 2 (none when the list is
    shorter), and a page has no card at any other place. *)
Theorem pagePools_lookup ps (page j : Z) :
  0 <= page ->
  at_index (pagePools ps page) j
  = if (0 <=? j) && (j <? 3) then at_index ps (3 * page + j) else None.
Proof.
  intros Hp. rewrite <- (Z2Nat.id page Hp), pagePools_take_drop.
  unfold at_index.
  destruct (Z.ltb_spec j 0) as [Hj|Hj].
  { destruct (Z.leb_spec 0 j); [lia | reflexivity]. }
  destruct (Z.leb_spec 0 j); [|lia]. simpl.
  destruct (Z.ltb_spec j 3) as [H3|H3].
  - destruct (Z.ltb_spec (3 * Z.of_nat (Z.to_nat page) + j) 0); [lia|].
    rewrite lookup_take_lt by lia. rewrite lookup_drop. f_equal. lia.
  - apply lookup_take_ge. lia.
Qed.

(** X12. The pages, first to last, are the pool list cut into pieces:
    put end to end they give the list back, so every pool is on exactly
    one page, in the order of the list. *)
Theorem pages_partition_the_pools ps : concat (allPages ps) = ps.
Proof.
  unfold allPages.
  assert (Hn : forall n : nat,
            concat (map (fun k => pagePools ps (Z.of_nat k)) (seq 0 n))
            = take (3 * n) ps).
  { induction n as [|n IH]; [reflexivity|].
    rewrite seq_S, map_app, concat_app, IH. simpl.
    rewrite app_nil_r, pagePools_take_drop, take_take_drop. f_equal. lia. }
  rewrite Hn. apply take_ge.
  pose proof (totalPages_eq ps) as Ht. unfold len in Ht.
  assert (Z.of_nat (length ps) <= 3 * totalPages ps).
  { rewrite Ht. Z.to_euclidean_division_equations; lia. }
  lia.
Qed.

(** X13. No page holds more than three pools; every page before the last
    holds exactly three; a page number past the last gives an empty
    page. *)
Theorem page_sizes ps (page : Z) :
  0 <= page ->
  len (pagePools ps page) <= 3
  /\ (page < totalPages ps - 1 -> len (pagePools ps page) = 3)
  /\ (totalPages ps <= page -> pagePools ps page = []).
Proof.
  intros Hp. rewrite len_pagePools by exact Hp.
  pose proof (len_nonneg ps) as Hl.
  pose proof (totalPages_eq ps) as Ht.
  split; [lia|]. split.
  - intros Hlt. assert (3 * (page + 1) <= len ps)
      by (rewrite Ht in Hlt; Z.to_euclidean_division_equations; lia).
    lia.
  - intros Hge.
    assert (Hlen : len (pagePools ps page) = 0).
    { rewrite len_pagePools by exact Hp.
      assert (len ps <= 3 * page)
        by (rewrite Ht in Hge; Z.to_euclidean_division_equations; lia).
      lia. }
    destruct (pagePools ps page); [reflexivity | discriminate Hlen].
Qed.

End Pages.

(** ** What the listeners do to their collaborators *)

Section Discipline.

Context {number : Type}.
Variables (a : Action) (ps : list (Pool number)) (before : list (Effect number)).
Implicit Types (w : World number).

Local Abbreviation within := (emitting (allowed a ps) ps before).

Lemma within_emit (e : Effect number) w :
  allowed a ps e -> within w -> within (emit e w).
Proof.
  intros He [Hp (new & Hn & Hall)]. split; [exact Hp|].
  exists (new ++ [e]). split.
  - simpl. rewrite Hn, <- app_assoc. reflexivity.
  - apply Forall_app. split; [exact Hall|]. constructor; [exact He | constructor].
Qed.

Lemma within_emits (l : list (Effect number)) w :
  Forall (allowed a ps) l ->
  within w ->
  within {| pools := pools w; visited := visited w; selectedIndex := selectedIndex w;
            currentStampsPage := currentStampsPage w; onStampsView := onStampsView w;
            mapReady := mapReady w; dom := dom w; effects := effects w ++ l |}.
Proof.
  intros Hl [Hp (new & Hn & Hall)]. split; [exact Hp|].
  exists (new ++ l). split.
  - simpl. rewrite Hn, <- app_assoc. reflexivity.
  - apply Forall_app. split; assumption.
Qed.

Lemma at_index_elem {A} (l : list A) (i : Z) (x : A) :
  at_index l i = Some x -> x ∈ l.
Proof.
  unfold at_index. destruct (i <? 0); [discriminate|].
  apply list_elem_of_lookup_2.
Qed.

Lemma head_elem {A} (l : list A) (x : A) : head l = Some x -> x ∈ l.
Proof. destruct l; [discriminate|]. intros [= ->]. apply list_elem_of_here. Qed.

Lemma stampDateOf_consistent (v : option VisitRecord) :
  stampDateOf v <> Some [] /\ (stampDateOf v <> None -> stampedOf v = true).
Proof.
  destruct v as [[[|] [[|c d]|]]|]; simpl; split; congruence.
Qed.

Lemma clampPage_range (total page : Z) :
  1 <= total -> 0 <= clampPage total page <= total - 1.
Proof. intros Ht. rewrite clampPage_clamp by exact Ht. unfold clamp. lia. Qed.

(** Continue with the rest of a body from a world that is within. *)
Ltac proceed H :=
  match goal with
  | |- emitting ?P ?l ?b (?c ?w).2 =>
      cut (preserves (emitting P l b) c);
      [ let Hc := fresh in intros Hc; apply Hc; exact H | ]
  end.

Lemma within_updateCount : preserves within updateCount.
Proof.
  unfold updateCount. apply preserves_reading. intros w H.
  pose proof H as [Hp _]. rewrite Hp. proceed H. preserve_seq.
  apply preserves_act. intros wx. apply within_emit. reflexivity.
Qed.

Lemma within_renderList : preserves within renderList.
Proof.
  unfold renderList. apply preserves_reading. intros w H.
  pose proof H as [Hp _]. rewrite Hp.
  destruct (len ps =? 0).
  - proceed H. preserve_seq. apply preserves_act. intros wx.
    apply within_emit. exact Logic.I.
  - destruct (at_index ps (selectedIndex w)) as [p|] eqn:Hat.
    + proceed H. preserve_seq; try apply within_updateCount;
        apply preserves_act; intros wx; apply within_emit.
      * exact Logic.I.
      * split; [eapply at_index_elem, Hat | apply stampDateOf_consistent].
    + proceed H. preserve_seq. apply preserves_act. intros wx.
      apply within_emit. exact Logic.I.
Qed.

Lemma within_renderStamps popName : preserves within (renderStamps popName).
Proof.
  intros w H. destruct (passportGrid (dom w)) eqn:Hg.
  2:{ now rewrite renderStamps_no_grid. }
  rewrite (renderStamps_draws popName w Hg). simpl.
  pose proof H as [Hp _].
  pose proof (totalPages_pos ps) as Ht.
  pose proof (clampPage_range (totalPages ps) (currentStampsPage w) Ht) as Hc.
  destruct H as [_ (new & Hn & Hall)]. split; [exact Hp|].
  eexists. split; [simpl; rewrite Hn, <- app_assoc; reflexivity|].
  apply Forall_app. split; [exact Hall|]. rewrite Hp.
  constructor; [exact Hc|]. constructor; [exact Logic.I|].
  apply Forall_app. split.
  - apply Forall_fmap, Forall_forall. intros p Hin. simpl.
    split; [eapply pagePools_subset, Hin | apply stampDateOf_consistent].
  - destruct (passportPageLabel (dom w)), (prevPassportPage (dom w)),
      (nextPassportPage (dom w)); simpl;
      repeat (constructor; simpl; try exact Logic.I; try lia).
Qed.

Lemma within_panToSelected :
  moves_map a = true -> preserves within panToSelected.
Proof.
  intros Ha. unfold panToSelected. apply preserves_reading. intros w H.
  pose proof H as [Hp _]. rewrite Hp.
  destruct (negb (mapReady w) || (len ps =? 0)); [exact H|].
  destruct (at_index ps (selectedIndex w)) as [p|] eqn:Hat; [|exact H].
  proceed H. preserve_seq; apply preserves_act; intros wx; apply within_emit;
    (split; [eapply at_index_elem, Hat | exact Ha]).
Qed.

Lemma within_openInNativeMaps apple : preserves within (openInNativeMaps apple).
Proof.
  unfold openInNativeMaps. apply preserves_reading. intros w H.
  pose proof H as [Hp _]. rewrite Hp.
  destruct (at_index ps (selectedIndex w)) as [p|] eqn:Hat.
  - apply within_emit; [|exact H]. simpl. eapply at_index_elem, Hat.
  - destruct (head ps) as [p0|] eqn:Hh; [|exact H].
    apply within_emit; [|exact H]. simpl. eapply head_elem, Hh.
Qed.

Lemma within_selectIndex idx :
  is_arrow a = true -> moves_map a = true -> preserves within (selectIndex idx).
Proof.
  intros Harrow Hmap. unfold selectIndex. preserve.
  - apply preserves_act. intros wx Hx. exact Hx.
  - apply preserves_act. intros wx. apply within_emit. exact Harrow.
  - apply within_renderList.
  - apply within_panToSelected, Hmap.
Qed.

Lemma within_persist_and_redraw (redraw : Cmd number) :
  is_stamp_action a = true ->
  preserves within redraw ->
  preserves within
    (andThen (reading (fun w => act (emit (WriteVisited (visited w))))) redraw).
Proof.
  intros Ha Hr. preserve; [|exact Hr].
  apply preserves_act. intros wx. apply within_emit. exact Ha.
Qed.

End Discipline.

Section Listeners.

Context {number : Type}.
Implicit Types (w : World number).

(** Every effect of a listener is one it is allowed. *)
Lemma handle_allowed (a : Action) w :
  extends_with (allowed a (pools w)) (effects w) (handle a w).2.
Proof.
  cut (emitting (allowed a (pools w)) (pools w) (effects w) (handle a w).2).
  { intros [_ H]. exact H. }
  cut (preserves (emitting (allowed a (pools w)) (pools w) (effects w)) (handle a)).
  { intros Hc. apply Hc. split; [reflexivity|].
    exists []. split; [now rewrite app_nil_r | constructor]. }
  generalize (pools w) (effects w). intros ps before.
  destruct a as [now nm | nm d | confirmed | step | delta | | | | apple | pan];
    simpl handle.
  - unfold toggleStamp. apply preserves_andThen.
    + apply preserves_act. intros wx Hx.
      destruct (stampedOf (visited wx !! nm)); exact Hx.
    + apply within_persist_and_redraw; [reflexivity|].
      apply preserves_andThen; [apply within_renderList | apply within_renderStamps].
  - unfold setStampDate. destruct (falsy d); [apply preserves_skip|].
    cbv zeta. destruct (falsy (trim d)); [apply preserves_skip|].
    apply preserves_andThen.
    + apply preserves_act. intros wx Hx. exact Hx.
    + apply within_persist_and_redraw; [reflexivity|].
      apply preserves_andThen; [apply within_renderList | apply within_renderStamps].
  - unfold resetStamps. destruct (negb confirmed); [apply preserves_skip|].
    apply preserves_andThen.
    + apply preserves_act. intros wx Hx. exact Hx.
    + apply within_persist_and_redraw; [reflexivity|].
      apply preserves_andThen; [apply within_renderList|].
      apply preserves_andThen; [apply within_renderStamps | apply within_updateCount].
  - unfold moveSelection. apply preserves_reading_any. intros w0.
    apply within_selectIndex; reflexivity.
  - unfold changeStampsPage. apply preserves_andThen.
    + apply preserves_act. intros wx Hx. exact Hx.
    + apply within_renderStamps.
  - apply preserves_reading_any. intros w0. unfold setView. preserve;
      try apply within_renderStamps;
      apply preserves_act; intros wx Hx;
      first [ exact Hx | apply within_emit; [exact Logic.I | exact Hx] ].
  - apply within_panToSelected. reflexivity.
  - unfold toggleFullMap. preserve;
      apply preserves_act; intros wx Hx; apply within_emit;
      first [exact Logic.I | exact Hx].
  - apply within_openInNativeMaps.
  - unfold resizeTimer. preserve; try (apply within_panToSelected; reflexivity);
      apply preserves_act; intros wx Hx; apply within_emit;
      first [exact Logic.I | exact Hx].
Qed.

Lemma extends_with_impl (P Q : Effect number -> Prop) before w :
  (forall e, P e -> Q e) -> extends_with P before w -> extends_with Q before w.
Proof.
  intros HPQ (new & Hn & Hall). exists new. split; [exact Hn|].
  eapply Forall_impl; [exact Hall | exact HPQ].
Qed.

(** X14. Whatever listener runs, every page number it hands to
    [writeStampsPage] is a page of the grid, between 0 and
    [totalPages - 1], and every count badge and page label it writes
    gives the number of pools and of pages. *)
Theorem listeners_persist_valid_pages (a : Action) w :
  extends_with (page_write_valid (pools w)) (effects w) (handle a w).2
  /\ extends_with (totals_of (pools w)) (effects w) (handle a w).2.
Proof.
  split; apply (extends_with_impl (allowed a (pools w))); try apply handle_allowed;
    intros [] H; simpl in *; try exact Logic.I; exact H.
Qed.

(** X15. A listener that does not change stamps never calls
    [writeVisited]; a listener that changes stamps never calls
    [writeSelection] and never moves the map; only the arrows call
    [writeSelection]. *)
Theorem listeners_write_only_what_they_change (a : Action) w :
  (if is_stamp_action a
   then extends_with not_selection_effect (effects w) (handle a w).2
   else extends_with not_visited_write (effects w) (handle a w).2)
  /\ (if is_arrow a then True
      else extends_with
             (fun e => match e with WriteSelection _ => False | _ => True end)
             (effects w) (handle a w).2).
Proof.
  pose proof (handle_allowed a w) as H.
  split.
  - destruct (is_stamp_action a) eqn:Ha;
      apply (extends_with_impl (allowed a (pools w))); try exact H;
      intros [] He; simpl in *; try exact Logic.I;
      destruct a; simpl in *; intuition discriminate.
  - destruct (is_arrow a) eqn:Ha; [exact Logic.I|].
    apply (extends_with_impl (allowed a (pools w))); try exact H.
    intros [] He; simpl in *; try exact Logic.I. congruence.
Qed.

(** X16. Whatever listener runs, every list row and every card it draws
    shows a date only on a stamp drawn as stamped, never an empty date,
    and every pool it draws, marks on the map or opens in the maps
    application is a pool of the loaded list. *)
Theorem listeners_draw_loaded_pools_consistently (a : Action) w :
  extends_with date_only_on_stamp (effects w) (handle a w).2
  /\ extends_with (shows_loaded_pool (pools w)) (effects w) (handle a w).2.
Proof.
  split; apply (extends_with_impl (allowed a (pools w))); try apply handle_allowed;
    intros [] H; simpl in *; try exact Logic.I; tauto.
Qed.

End Listeners.

(** ** Sessions in a complete document *)

Section SafeCommands.

Context {number : Type}.
Implicit Types (w : World number) (c : Cmd number) (I : World number -> Prop).

Lemma safe_skip I : safe I skip.
Proof. intros w H. split; [reflexivity | exact H]. Qed.

Lemma safe_act I f : (forall w, I w -> I (f w)) -> safe I (act f).
Proof. intros Hf w H. split; [reflexivity | apply Hf, H]. Qed.

Lemma safe_andThen I c1 c2 : safe I c1 -> safe I c2 -> safe I (andThen c1 c2).
Proof.
  intros H1 H2 w H. unfold andThen.
  destruct (H1 w H) as [E1 K1]. destruct (c1 w) as [[|] w1]; simpl in *.
  - apply H2, K1.
  - discriminate.
Qed.

Lemma safe_requires I present :
  (forall w, I w -> present (dom w) = true) -> safe I (requires present).
Proof. intros Hp w H. unfold requires. rewrite (Hp w H). split; [reflexivity | exact H]. Qed.

Lemma safe_whenPresent I present c : safe I c -> safe I (whenPresent present c).
Proof.
  intros Hc w H. unfold whenPresent.
  destruct (present (dom w)); [apply Hc, H | split; [reflexivity | exact H]].
Qed.

Lemma safe_reading I (k : World number -> Cmd number) :
  (forall w0, I w0 -> (k w0 w0).1 = Normal /\ I (k w0 w0).2) -> safe I (reading k).
Proof. intros Hk w H. apply Hk, H. Qed.

Lemma safe_reading_any I (k : World number -> Cmd number) :
  (forall w0, safe I (k w0)) -> safe I (reading k).
Proof. intros Hk w H. apply Hk, H. Qed.

End SafeCommands.

(** Break a goal [safe healthy c] down along the shape of [c]. *)
Ltac secure :=
  repeat match goal with
    | |- safe _ skip => apply safe_skip
    | |- safe _ (andThen _ _) => apply safe_andThen
    | |- safe _ (whenPresent _ _) => apply safe_whenPresent
    | |- safe _ (reading _) => apply safe_reading_any; intros ?
    | |- safe _ (requires _) =>
        apply safe_requires; let H := fresh in intros ? [H _]; rewrite H; reflexivity
    | |- safe _ (act _) =>
        apply safe_act; let H := fresh in intros ? H; exact H
    | |- safe _ (if ?b then _ else _) => destruct b
    end.

Section SessionSafety.

Context {number json : Type}.
Variable Number : json -> number.
Implicit Types (w : World number).

Lemma reading_apply (k : World number -> Cmd number) w : reading k w = k w w.
Proof. reflexivity. Qed.

Lemma at_index_in_range {A} (l : list A) (i : Z) :
  0 <= i < len l -> exists x, at_index l i = Some x.
Proof.
  intros Hi. unfold at_index. destruct (Z.ltb_spec i 0); [lia|].
  destruct (l !! Z.to_nat i) as [x|] eqn:E; [eauto|].
  apply lookup_ge_None in E. unfold len in Hi. lia.
Qed.

Lemma safe_updateCount : safe healthy (@updateCount number).
Proof. unfold updateCount. secure. Qed.

Lemma safe_renderStamps popName : safe healthy (@renderStamps number popName).
Proof.
  unfold renderStamps. secure.
  apply safe_act. intros wx Hx. apply preserves_emits; [|exact Hx].
  intros e wy Hy. exact Hy.
Qed.

Lemma safe_renderList : safe healthy (@renderList number).
Proof.
  unfold renderList. apply safe_reading. intros w H.
  pose proof H as [_ [Hnil|Hin]].
  - rewrite Hnil. change (len (@nil (Pool number)) =? 0) with true. cbv iota.
    revert w H Hnil. intros w H _. revert w H.
    change (safe healthy (andThen (requires poolList) (act (emit (@PoolListNone number))))).
    secure.
  - destruct (Z.eqb_spec (len (pools w)) 0) as [E|_]; [lia|].
    destruct (at_index_in_range _ _ Hin) as [p Hp]. rewrite Hp.
    match goal with |- (?c w).1 = _ /\ _ => cut (safe healthy c) end.
    { intros Hc. apply Hc, H. }
    secure. apply safe_updateCount.
Qed.

Lemma safe_panToSelected : safe healthy (@panToSelected number).
Proof.
  unfold panToSelected. apply safe_reading. intros w H.
  destruct (negb (mapReady w) || (len (pools w) =? 0)) eqn:E.
  { split; [reflexivity | exact H]. }
  apply orb_false_iff in E as [_ E]. apply Z.eqb_neq in E.
  pose proof H as [_ [Hnil|Hin]].
  { rewrite Hnil in E. now contradiction E. }
  destruct (at_index_in_range _ _ Hin) as [p Hp]. rewrite Hp.
  match goal with |- (?c w).1 = _ /\ _ => cut (safe healthy c) end.
  { intros Hc. apply Hc, H. }
  secure.
Qed.

Lemma selectIndex_unfold idx w :
  selectIndex idx w
  = if len (pools w) =? 0 then (Normal, w)
    else andThen (act (set_selectedIndex (Z.rem (idx + len (pools w)) (len (pools w)))))
           (andThen (reading (fun w' => act (emit (WriteSelection (selectedIndex w')))))
              (andThen renderList panToSelected)) w.
Proof. unfold selectIndex, reading at 1. now destruct (len (pools w) =? 0). Qed.

(** [selectIndex] from a healthy world, for an index not below [-N]. *)
Lemma selectIndex_safe_at idx w :
  healthy w ->
  (pools w <> [] -> - len (pools w) <= idx) ->
  (selectIndex idx w).1 = Normal /\ healthy (selectIndex idx w).2.
Proof.
  intros H Hidx. rewrite selectIndex_unfold.
  destruct (Z.eqb_spec (len (pools w)) 0) as [E|E].
  { split; [reflexivity | exact H]. }
  assert (Hp : pools w <> []) by (intros Hnil; rewrite Hnil in E; now apply E).
  specialize (Hidx Hp). apply len_pos_iff in Hp.
  rewrite andThen_act.
  match goal with |- (?c ?w1).1 = _ /\ _ => cut (safe healthy c) end.
  { intros Hc. apply Hc. destruct H as [Hd _]. split; [exact Hd|].
    right. simpl. rewrite Z.rem_mod_nonneg by lia. apply Z.mod_pos_bound. lia. }
  secure; [apply safe_renderList | apply safe_panToSelected].
Qed.

Lemma safe_moveSelection step :
  step = 1 \/ step = -1 -> safe healthy (@moveSelection number step).
Proof.
  intros Hstep. unfold moveSelection. apply safe_reading. intros w H.
  apply selectIndex_safe_at; [exact H|]. intros Hp.
  destruct H as [_ [Hnil|Hin]]; [contradiction | lia].
Qed.

Lemma safe_setView showStamps : safe healthy (@setView number showStamps).
Proof. unfold setView. secure. apply safe_renderStamps. Qed.

Lemma safe_handle (a : Action) :
  from_listener a -> safe healthy (@handle number a).
Proof.
  destruct a as [now nm | nm d | confirmed | step | delta | | | | apple | pan];
    simpl; intros Ha.
  - unfold toggleStamp. secure;
      first [ apply safe_renderList | apply safe_renderStamps | idtac ].
    apply safe_act. intros wx Hx. destruct (stampedOf (visited wx !! nm)); exact Hx.
  - unfold setStampDate. secure;
      first [ apply safe_renderList | apply safe_renderStamps ].
  - unfold resetStamps. secure;
      first [ apply safe_renderList | apply safe_renderStamps | apply safe_updateCount ].
  - apply safe_moveSelection, Ha.
  - unfold changeStampsPage. secure. apply safe_renderStamps.
  - apply safe_reading_any. intros w0. apply safe_setView.
  - apply safe_panToSelected.
  - unfold toggleFullMap. secure.
  - unfold openInNativeMaps. apply safe_reading_any. intros w0.
    destruct (at_index (pools w0) (selectedIndex w0)); [secure|].
    destruct (head (pools w0)); secure.
  - unfold resizeTimer. secure. apply safe_panToSelected.
Qed.

Lemma safe_init fetched : safe healthy (init Number fetched).
Proof.
  unfold init.
  destruct (match fetched with inl e => inl e | inr response => loadPools Number response end)
    as [err|loaded].
  { secure. }
  intros w H. rewrite andThen_act, (reading_apply _ (set_pools loaded w)).
  change (pools (set_pools loaded w)) with loaded.
  destruct (Z.eqb_spec (len loaded) 0) as [E|E].
  { destruct loaded; [|discriminate E].
    match goal with |- (?c ?w1).1 = _ /\ _ => cut (safe healthy c) end.
    { intros Hc. apply Hc. destruct H as [Hd _]. split; [exact Hd | now left]. }
    secure. }
  rewrite andThen_reading.
  change (selectedIndex (set_pools loaded w)) with (selectedIndex w).
  change (pools (set_pools loaded w)) with loaded.
  assert (Hlen : 0 < len loaded) by (pose proof (len_nonneg loaded); lia).
  assert (Hrest : safe healthy
            (andThen setupMap
               (andThen (reading (fun w2 : World number => selectIndex (selectedIndex w2)))
                  (andThen (setView false)
                     (andThen updateCount (act (emit (ResizeScheduled true)))))))).
  { apply safe_andThen.
    { unfold setupMap. apply safe_reading_any. intros w0.
      destruct (pools w0); secure. }
    apply safe_andThen.
    { apply safe_reading. intros w2 H2. apply selectIndex_safe_at; [exact H2|].
      intros Hp. destruct H2 as [_ [Hnil|Hin]]; [contradiction | lia]. }
    apply safe_andThen; [apply safe_setView|].
    apply safe_andThen; [apply safe_updateCount | secure]. }
  destruct ((selectedIndex w <? 0) || (selectedIndex w >=? len loaded)) eqn:Hout.
  - rewrite andThen_act. apply Hrest.
    destruct H as [Hd _]. split; [exact Hd|]. right. simpl. lia.
  - apply Hrest. destruct H as [Hd _]. split; [exact Hd|]. right. simpl.
    apply orb_false_iff in Hout as [H1 H2].
    apply Z.ltb_ge in H1. rewrite Z.geb_leb in H2. apply Z.leb_gt in H2. lia.
Qed.

(** X17. In a complete document, through a whole session (the page
    loads, [init] runs, the listeners fire with their own arguments) the
    selection stays an index of the pool list, no listener throws, and
    [init] does not throw. *)
Theorem session_never_throws w :
  Session Number w ->
  selection_ok w
  /\ (forall a, from_listener a -> (handle a w).1 = Normal)
  /\ (forall fetched, (init Number fetched w).1 = Normal).
Proof.
  intros Hs.
  assert (H : healthy w).
  { induction Hs as [v sel page | w fetched _ IH | w a _ IH Ha].
    - split; [reflexivity | now left].
    - apply (safe_init fetched w IH).
    - apply (safe_handle a Ha w IH). }
  split; [apply H|]. split.
  - intros a Ha. apply (safe_handle a Ha w H).
  - intros fetched. apply (safe_init fetched w H).
Qed.

End SessionSafety.

(** ** Start-up: the paths of [init] and the loader *)

Section StartUp.

Context {number json : Type}.
Variable Number : json -> number.
Implicit Types (w : World number) (response : Response json).

(** X18. When the fetch is rejected, or the response is not ok, or its
    body does not parse, [init] reports the error on the console, writes
    'Error loading pools list.' into the list element when there is one,
    and stops: the pools, the selection, the page, the stamps and the map
    stay as they were. For a response that is not ok the reported error
    spells the status. *)
Theorem init_stops_on_load_failure w fetched err :
  fetched = inl err
  \/ (exists response, fetched = inr response /\ loadPools Number response = inl err) ->
  init Number fetched w
  = (Normal,
     if poolList (dom w)
     then emit (PoolListText (js "Error loading pools list.")) (emit (ConsoleError err) w)
     else emit (ConsoleError err) w)
  /\ (forall response,
        fetched = inr response -> ok response = false ->
        err = {| message := js "Failed to load pools.json (status "
                              ++ decimal (status response) ++ js ")" |}).
Proof.
  intros Hf. split.
  - unfold init.
    replace (match fetched with inl e => inl e | inr response => loadPools Number response end)
      with (@inl JsError (list (Pool number)) err)
      by (destruct Hf as [->|(r & -> & Hr)]; [reflexivity | now rewrite Hr]).
    rewrite andThen_act. unfold whenPresent. simpl.
    destruct (poolList (dom w)); reflexivity.
  - intros response -> Hok. destruct Hf as [Hf|(r & [= <-] & Hr)]; [discriminate|].
    unfold loadPools in Hr. rewrite Hok in Hr.
    change (negb false) with true in Hr. cbv iota in Hr.
    injection Hr as <-. reflexivity.
Qed.

(** X19. When the data file holds no record, [init] takes the empty
    list, writes 'No pools configured.' into the list element when there
    is one, and stops: it sets up no map, writes no selection, and leaves
    the saved selection as it was even when it is out of range. *)
Theorem init_stops_without_pools w response :
  loadPools Number response = inr [] ->
  init Number (inr response) w
  = (Normal,
     if poolList (dom w)
     then emit (PoolListText (js "No pools configured.")) (set_pools [] w)
     else set_pools [] w).
Proof.
  intros Hl. unfold init. rewrite Hl, andThen_act.
  unfold reading, whenPresent. simpl.
  destruct (poolList (dom w)); reflexivity.
Qed.

Lemma andThen_normal (c1 c2 : Cmd number) w w' :
  c1 w = (Normal, w') -> andThen c1 c2 w = c2 w'.
Proof. intros H. unfold andThen. now rewrite H. Qed.

Lemma started_emit (ps : list (Pool number)) (i : Z) : emit_stable (started ps i).
Proof. intros e w H. exact H. Qed.

(** X20. When pools load and the saved selection is an index of their
    list, [init] keeps it: it ends with the loaded pools, that selection
    and the map set up, whatever else is missing from the document. *)
Theorem init_keeps_saved_selection w response p0 ps :
  loadPools Number response = inr (p0 :: ps) ->
  0 <= selectedIndex w < len (p0 :: ps) ->
  pools (init Number (inr response) w).2 = p0 :: ps
  /\ selectedIndex (init Number (inr response) w).2 = selectedIndex w
  /\ mapReady (init Number (inr response) w).2 = true.
Proof.
  intros Hl Hs.
  cut (started (p0 :: ps) (selectedIndex w) (init Number (inr response) w).2).
  { intros H. exact H. }
  unfold init. rewrite Hl, andThen_act.
  rewrite (reading_apply _ (set_pools (p0 :: ps) w)).
  change (pools (set_pools (p0 :: ps) w)) with (p0 :: ps).
  rewrite len_cons_eqb, andThen_reading.
  change (selectedIndex (set_pools (p0 :: ps) w)) with (selectedIndex w).
  change (pools (set_pools (p0 :: ps) w)) with (p0 :: ps).
  replace ((selectedIndex w <? 0) || (selectedIndex w >=? len (p0 :: ps))) with false.
  2:{ symmetry. apply orb_false_iff. split; [apply Z.ltb_ge; lia|].
      rewrite Z.geb_leb. apply Z.leb_gt. lia. }
  rewrite (andThen_normal skip _ _ (set_pools (p0 :: ps) w) eq_refl).
  rewrite (andThen_normal setupMap _ (set_pools (p0 :: ps) w)
             (set_mapReady true (emit (MapCreated p0) (set_pools (p0 :: ps) w)))
             eq_refl).
  match goal with |- started ?l ?i (?c ?w1).2 =>
    cut (preserves (started l i) c)
  end.
  { intros Hc. apply Hc. repeat split. }
  preserve_seq.
  - apply preserves_reading. intros w2 H2. destruct H2 as (Hp2 & Hs2 & Hm2).
    assert (Hne : pools w2 <> []) by (rewrite Hp2; discriminate).
    split; [|split].
    + rewrite <- Hp2. apply (selectIndex_stable (fun w' => pools w' = pools w2));
        [apply pools_emit_stable | intros x w' H; exact H | reflexivity].
    + rewrite (selectIndex_selectedIndex _ _ Hne), Hp2, Hs2.
      rewrite Z.rem_mod_nonneg by lia.
      rewrite <- Z.add_mod_idemp_r, Z.mod_same, Z.add_0_r by lia.
      apply Z.mod_small. exact Hs.
    + rewrite <- Hm2. apply (selectIndex_stable (fun w' => mapReady w' = mapReady w2));
        [intros e w' H; exact H | intros x w' H; exact H | reflexivity].
  - apply setView_stable; [apply started_emit | intros x w' H; exact H
                          | intros x w' H; exact H].
  - apply updateCount_preserves, started_emit.
  - apply act_emit_preserves, started_emit.
Qed.

(** X21. [renderList] completes normally exactly when the list element
    is in the document and either no pool is loaded, or the selection is
    an index of the pool list and the count badge is in the document;
    otherwise it throws. *)
Theorem renderList_completes_iff w :
  (renderList w).1 = Normal
  <-> poolList (dom w) = true
      /\ (pools w = []
          \/ (is_Some (at_index (pools w) (selectedIndex w))
              /\ countBadge (dom w) = true)).
Proof.
  unfold renderList, updateCount, reading, andThen, requires, act.
  destruct (pools w) as [|p0 ps] eqn:Hp.
  - simpl. destruct (poolList (dom w)); simpl; split;
      try discriminate; try (intros [? _]; discriminate); auto.
  - rewrite len_cons_eqb.
    destruct (poolList (dom w)); simpl.
    2:{ split; [discriminate | intros [? _]; discriminate]. }
    destruct (at_index (p0 :: ps) (selectedIndex w)) as [p|]; simpl.
    + destruct (countBadge (dom w)); simpl; split; try discriminate.
      * intros _. split; [reflexivity|]. right. split; [eauto | reflexivity].
      * reflexivity.
      * intros [_ [?|[_ ?]]]; discriminate.
    + split; [discriminate|].
      intros [_ [?|[[x Hx] _]]]; discriminate.
Qed.

(** X22. When [loadPools] resolves with a list, the response was ok and
    its body an array, and the list has one pool for each record, in the
    order of the file, with the record's name and with [Number] applied
    to its coordinates. *)
Theorem loadPools_keeps_the_records response loaded :
  loadPools Number response = inr loaded ->
  ok response = true
  /\ exists raw,
       json_body response = inr raw
       /\ length loaded = length raw
       /\ map name loaded = map raw_name raw
       /\ map lat loaded = map (fun r => Number (raw_lat r)) raw
       /\ map lng loaded = map (fun r => Number (raw_lng r)) raw.
Proof.
  unfold loadPools. destruct (ok response); simpl; [|discriminate].
  destruct (json_body response) as [e|raw]; [discriminate|].
  intros [= <-]. split; [reflexivity|]. exists raw.
  rewrite length_map, !map_map. repeat split.
Qed.

End StartUp.

(** ** The further properties at concrete inputs *)

(** X1 (witness). One step forward from the last of five pools. *)
Lemma moveSelection_wraps_witness :
  (pools (Sample.session Sample.fivePools 4 0) <> []
   /\ - len (pools (Sample.session Sample.fivePools 4 0))
      <= selectedIndex (Sample.session Sample.fivePools 4 0) + 1)
  /\ selectedIndex (moveSelection 1 (Sample.session Sample.fivePools 4 0)).2 = 0.
Proof.
  assert (H1 : pools (Sample.session Sample.fivePools 4 0) <> []) by discriminate.
  assert (H2 : - len (pools (Sample.session Sample.fivePools 4 0))
               <= selectedIndex (Sample.session Sample.fivePools 4 0) + 1)
    by (vm_compute; discriminate).
  split; [split; assumption|].
  rewrite (proj1 (moveSelection_wraps 1 (Sample.session Sample.fivePools 4 0) H1 H2)).
  reflexivity.
Defined.

(** X2 (witness). From the third of five pools. *)
Lemma moveSelection_there_and_back_witness :
  0 <= selectedIndex (Sample.session Sample.fivePools 2 0)
    < len (pools (Sample.session Sample.fivePools 2 0))
  /\ selectedIndex (moveSelection (-1)
                      (moveSelection 1 (Sample.session Sample.fivePools 2 0)).2).2
     = 2.
Proof.
  assert (H : 0 <= selectedIndex (Sample.session Sample.fivePools 2 0)
              < len (pools (Sample.session Sample.fivePools 2 0)))
    by (vm_compute; split; [discriminate | reflexivity]).
  split; [exact H|].
  exact (proj1 (moveSelection_there_and_back (Sample.session Sample.fivePools 2 0) H)).
Defined.

(** X3 (witness). Five steps forward over five pools. *)
Lemma moveSelection_forward_steps_witness :
  0 <= selectedIndex (Sample.session Sample.fivePools 2 0)
    < len (pools (Sample.session Sample.fivePools 2 0))
  /\ selectedIndex
       (Nat.iter (length (pools (Sample.session Sample.fivePools 2 0)))
          (fun w' => (moveSelection 1 w').2) (Sample.session Sample.fivePools 2 0))
     = 2.
Proof.
  assert (H : 0 <= selectedIndex (Sample.session Sample.fivePools 2 0)
              < len (pools (Sample.session Sample.fivePools 2 0)))
    by (vm_compute; split; [discriminate | reflexivity]).
  split; [exact H|].
  exact (proj2 (moveSelection_forward_steps (Sample.session Sample.fivePools 2 0) 0 H)).
Defined.

(** X4 (witness). Selecting the fourth of five pools. *)
Lemma selectIndex_persists_selection_witness :
  pools (Sample.session Sample.fivePools 0 0) <> []
  /\ exists rest,
       effects (selectIndex 3 (Sample.session Sample.fivePools 0 0)).2
       = effects (Sample.session Sample.fivePools 0 0)
           ++ WriteSelection
                (selectedIndex (selectIndex 3 (Sample.session Sample.fivePools 0 0)).2)
           :: rest.
Proof.
  assert (H : pools (Sample.session Sample.fivePools 0 0) <> []) by discriminate.
  split; [exact H|].
  exact (selectIndex_persists_selection 3 (Sample.session Sample.fivePools 0 0) H).
Defined.

(** X7 (witness). A date set after a toggle. *)
Lemma setStampDate_and_toggleStamp_compose_witness :
  (isBlank (js "2025-06-01") = false /\ isBlank (js " 2025-07-15 ") = false)
  /\ visited (setStampDate (js "Bronte Baths") (js " 2025-07-15 ")
                (setStampDate (js "Bronte Baths") (js "2025-06-01")
                   (Sample.session Sample.fivePools 0 0)).2).2 !! js "Bronte Baths"
     = Some {| done := true; date := Some (trim (js " 2025-07-15 ")) |}.
Proof.
  split; [split; reflexivity|].
  exact (proj1 (proj2 (setStampDate_and_toggleStamp_compose Sample.noon20250601
                         (js "Bronte Baths") true (js "2025-06-01") (js " 2025-07-15 ")
                         (Sample.session Sample.fivePools 0 0) eq_refl eq_refl))).
Defined.

(** X8 (witness). An input with white space around it. *)
Lemma setStampDate_stores_a_trimmed_date_witness :
  isBlank (js "  2025-06-01 ") = false
  /\ exists t,
       visited (setStampDate (js "Bronte Baths") (js "  2025-06-01 ")
                  (Sample.session Sample.fivePools 0 0)).2 !! js "Bronte Baths"
       = Some {| done := true; date := Some t |}
       /\ trim t = t.
Proof.
  split; [reflexivity|].
  destruct (setStampDate_stores_a_trimmed_date (js "Bronte Baths") (js "  2025-06-01 ")
              (Sample.session Sample.fivePools 0 0) eq_refl)
    as (t & Ht & _ & _ & _ & Hfix).
  exists t. split; [exact Ht | exact Hfix].
Defined.

(** X9 (witness). The answer 2025-12-05 on a stamped card. *)
Lemma onDateClick_passes_one_text_only_witness :
  (card_stamped Cases.stampedCard = true
   /\ trim (js " 2025-12-05") = 50%N :: js "025-12-05"
   /\ (48 <= 50 <= 57)%N)
  /\ onDateClick Cases.stampedCard (Some (js " 2025-12-05"))
       (Sample.session Sample.fivePools 0 0)
     = (Refused, (Normal, Sample.session Sample.fivePools 0 0)).
Proof.
  assert (Hd : (48 <= 50 <= 57)%N) by (split; discriminate).
  split; [split; [reflexivity | split; [reflexivity | exact Hd]]|].
  exact (proj2 (proj2 (onDateClick_passes_one_text_only Cases.stampedCard
                         (Some (js " 2025-12-05"))
                         (Sample.session Sample.fivePools 0 0)))
           (js " 2025-12-05") 50%N (js "025-12-05") eq_refl eq_refl eq_refl Hd).
Defined.

(** X11 (witness). The first card of the third page of seven pools. *)
Lemma pagePools_lookup_witness :
  0 <= 2
  /\ at_index (pagePools Sample.sevenPools 2) 0 = at_index Sample.sevenPools 6.
Proof.
  assert (H : 0 <= 2) by discriminate.
  split; [exact H|].
  exact (pagePools_lookup Sample.sevenPools 2 0 H).
Defined.

(** X13 (witness). The first page of seven pools is full. *)
Lemma page_sizes_witness :
  0 <= 0 /\ len (pagePools Sample.sevenPools 0) <= 3.
Proof.
  assert (H : 0 <= 0) by discriminate.
  split; [exact H|].
  exact (proj1 (page_sizes Sample.sevenPools 0 H)).
Defined.

(** X17 (witness). The world after start-up. *)
Lemma session_never_throws_witness :
  Session Sample.asNumber Cases.afterStartUp
  /\ selection_ok Cases.afterStartUp.
Proof.
  assert (H : Session Sample.asNumber Cases.afterStartUp).
  { apply session_init. apply session_load. }
  split; [exact H|].
  exact (proj1 (session_never_throws Sample.asNumber Cases.afterStartUp H)).
Defined.

(** X18 (witness). The 404 response. *)
Lemma init_stops_on_load_failure_witness :
  (inr Sample.notFound = @inl JsError (Response Z) Cases.notFoundError
   \/ exists response,
        @inr JsError (Response Z) Sample.notFound = inr response
        /\ loadPools Sample.asNumber response = inl Cases.notFoundError)
  /\ init Sample.asNumber (inr Sample.notFound) (Sample.firstRun 0)
     = (Normal,
        emit (PoolListText (js "Error loading pools list."))
          (emit (ConsoleError Cases.notFoundError) (Sample.firstRun 0))).
Proof.
  assert (H : inr Sample.notFound = @inl JsError (Response Z) Cases.notFoundError
              \/ exists response,
                   @inr JsError (Response Z) Sample.notFound = inr response
                   /\ loadPools Sample.asNumber response = inl Cases.notFoundError).
  { right. exists Sample.notFound. split; reflexivity. }
  split; [exact H|].
  exact (proj1 (init_stops_on_load_failure Sample.asNumber (Sample.firstRun 0)
                  (inr Sample.notFound) Cases.notFoundError H)).
Defined.

(** X19 (witness). An empty data file and a stale selection. *)
Lemma init_stops_without_pools_witness :
  loadPools Sample.asNumber Cases.emptyFile = inr []
  /\ selectedIndex (init Sample.asNumber (inr Cases.emptyFile) (Sample.firstRun 9)).2 = 9.
Proof.
  split; [reflexivity|].
  rewrite (init_stops_without_pools Sample.asNumber (Sample.firstRun 9)
             Cases.emptyFile eq_refl).
  reflexivity.
Defined.

(** X20 (witness). Five pools load and the saved selection is 3. *)
Lemma init_keeps_saved_selection_witness :
  0 <= selectedIndex (Sample.firstRun 3) < len Sample.fivePools
  /\ selectedIndex (init Sample.asNumber (inr Sample.okResponse) (Sample.firstRun 3)).2
     = 3.
Proof.
  assert (H : 0 <= selectedIndex (Sample.firstRun 3) < len Sample.fivePools)
    by (vm_compute; split; [discriminate | reflexivity]).
  split; [exact H|].
  exact (proj1 (proj2 (init_keeps_saved_selection Sample.asNumber (Sample.firstRun 3)
                         Sample.okResponse
                         (Sample.pool "Bronte Baths" (-33905200) 151268500)
                         (tl Sample.fivePools) eq_refl H))).
Defined.

(** X22 (witness). The five records of the sample file. *)
Lemma loadPools_keeps_the_records_witness :
  loadPools Sample.asNumber Sample.okResponse = inr Sample.fivePools
  /\ ok Sample.okResponse = true.
Proof.
  split; [reflexivity|].
  exact (proj1 (loadPools_keeps_the_records Sample.asNumber Sample.okResponse
                  Sample.fivePools eq_refl)).
Defined.
